(** * System Design Co-Pilot: phase routing and document accumulation

    A shallow embedding of [agent.py] and [database.py]: the command
    router, the phase turn processor, the summarizer, the persistence
    manager and the streaming orchestrator, followed by the properties
    established about them.

    Python strings are modelled by [string] read as sequences of code
    points below 256; [lower] and [strip] follow [str.lower] and
    [str.strip] on that range.  Dictionaries are [gmap]s.  Exceptions are
    an explicit result type threaded through a small state monad over the
    world (the two MongoDB collections and the trace of model calls). *)

From Stdlib Require Import Ascii NArith Bool Lia.
From Stdlib Require String.
From stdpp Require Import base option list strings gmap fin_maps.

(** ** Python string operations *)

Module PyStr.

Definition nl : string := String (ascii_of_N 10) EmptyString.

Definition code (c : ascii) : N := N_of_ascii c.

Definition in_range (lo hi n : N) : bool := ((lo <=? n) && (n <=? hi))%N.

(** [str.isspace] on one code point below 256. *)
Definition is_space (c : ascii) : bool :=
  let n := code c in
  in_range 9 13 n || in_range 28 32 n || (n =? 133)%N || (n =? 160)%N.

(** Code points below 256 with a lowercase mapping: A-Z, and the Latin-1
    capitals U+00C0..U+00DE except the multiplication sign U+00D7. *)
Definition has_lower (c : ascii) : bool :=
  let n := code c in
  in_range 65 90 n || (in_range 192 222 n && negb (n =? 215)%N).

Definition char_lower (c : ascii) : ascii :=
  if has_lower c then ascii_of_N (code c + 32) else c.

Fixpoint lower (s : string) : string :=
  match s with
  | EmptyString => EmptyString
  | String c t => String (char_lower c) (lower t)
  end.

Fixpoint lstrip (s : string) : string :=
  match s with
  | EmptyString => EmptyString
  | String c t => if is_space c then lstrip t else s
  end.

Fixpoint rstrip (s : string) : string :=
  match s with
  | EmptyString => EmptyString
  | String c t =>
      match rstrip t with
      | EmptyString => if is_space c then EmptyString else String c EmptyString
      | t' => String c t'
      end
  end.

Definition strip (s : string) : string := rstrip (lstrip s).

Fixpoint startswith (p s : string) : bool :=
  match p, s with
  | EmptyString, _ => true
  | String _ _, EmptyString => false
  | String a p', String b s' => Ascii.eqb a b && startswith p' s'
  end.

(** [needle in hay]. *)
Fixpoint contains (needle hay : string) : bool :=
  startswith needle hay ||
  match hay with
  | EmptyString => false
  | String _ t => contains needle t
  end.

(** [s.replace(old, new)] for a non-empty [old]: occurrences are replaced
    left to right without overlap; [skip] counts the characters of a
    matched occurrence still to be dropped. *)
Fixpoint replace_from (old new : string) (skip : nat) (s : string) : string :=
  match s with
  | EmptyString => EmptyString
  | String c t =>
      match skip with
      | S k => replace_from old new k t
      | O =>
          if startswith old s
          then new +:+ replace_from old new (String.length old - 1) t
          else String c (replace_from old new 0 t)
      end
  end.

Definition replace (old new s : string) : string := replace_from old new 0 s.

Definition is_upper (c : ascii) : bool := in_range 65 90 (code c).
Definition is_lower (c : ascii) : bool := in_range 97 122 (code c).
Definition char_upper (c : ascii) : ascii :=
  if is_lower c then ascii_of_N (code c - 32) else c.

(** [str.title] on ASCII text, the only text it is applied to (the phase
    identifiers): a letter is upper-cased after an uncased character and
    lower-cased after a cased one. *)
Fixpoint title_from (previous_is_cased : bool) (s : string) : string :=
  match s with
  | EmptyString => EmptyString
  | String c t =>
      let cased := is_upper c || is_lower c in
      String (if previous_is_cased then char_lower c else char_upper c)
             (title_from cased t)
  end.

Definition title (s : string) : string := title_from false s.

(** [sep.join(parts)]. *)
Fixpoint join (sep : string) (parts : list string) : string :=
  match parts with
  | [] => EmptyString
  | [p] => p
  | p :: rest => p +:+ sep +:+ join sep rest
  end.

Definition is_hex (c : ascii) : bool :=
  let n := code c in
  in_range 48 57 n || in_range 65 70 n || in_range 97 102 n.

Fixpoint all_chars (f : ascii -> bool) (s : string) : bool :=
  match s with
  | EmptyString => true
  | String c t => f c && all_chars f t
  end.

End PyStr.

(** ** Prompt templates ([prompts.py])

    The prompt texts are opaque payloads handed to the language model; no
    function below inspects them.  They are kept as the bytes of the
    source file. *)

Module Prompts.
Import PyStr.

Definition SYSTEM_PERSONA : string :=
    "You are an expert Staff-level Software Engineer and AI Architect acting as a Socratic system design coach. Your goal is to guide the user from a high-level idea to a well-defined set of system requirements. You MUST NOT provide direct answers or solutions. Instead, you MUST ask probing, open-ended questions to help the user think through all critical aspects of system design. Your tone is professional, encouraging, and collaborative. You will guide the user through a series of phases. In each phase, ask the specified questions. Base your follow-up questions on the user's responses to dig deeper.".

Definition VISION_AND_SCOPING_PROMPT : string :=
    "Let's begin with the big picture. To build a solid foundation, we need to understand the 'why' behind this project."
    +:+ nl +:+ nl +:+ "First, what is the core problem you're aiming to solve? Who are your primary users, and what are their biggest pain points that this system will address?"
    +:+ nl +:+ nl +:+ "Next, what are the absolute, must-have outcomes for a version 1? Think about the minimum viable product (MVP) that delivers real value."
    +:+ nl +:+ nl +:+ "Finally, let's talk about constraints. Are there any hard limits on budget, timeline, team expertise, or required use of existing company infrastructure?".

Definition FUNCTIONAL_REQUIREMENTS_PROMPT : string :=
    "Great, we have a clear vision. Now, let's detail *what* the system will do. Let's define the functional requirements."
    +:+ nl +:+ nl +:+ "Could you describe the key user journeys? For example, walk me through the steps a user would take to accomplish their main goal, from start to finish."
    +:+ nl +:+ nl +:+ "Can you list the core features as user stories? The format 'As a [user type], I can [perform an action] so that [I get this benefit]' is very helpful."
    +:+ nl +:+ nl +:+ "Will this system expose an API for other services or clients? If so, what are the crucial endpoints you envision, such as `POST /users` or `GET /products/{id}`?".

Definition DATA_MODEL_PROMPT : string :=
    "Excellent. With the functionality defined, let's focus on the data—the lifeblood of the system."
    +:+ nl +:+ nl +:+ "What are the fundamental entities or 'nouns' in your system? Think about core concepts like 'User', 'Product', 'Order', 'Document', etc."
    +:+ nl +:+ nl +:+ "How do these entities relate to each other? Is it one-to-many (a User has many Orders), many-to-many (a Product can be in many Categories)?"
    +:+ nl +:+ nl +:+ "What kind of data will you store for each entity? Is it highly structured like a user profile, semi-structured like a JSON document, or unstructured like a full blog post or image?"
    +:+ nl +:+ nl +:+ "Crucially, let's consider the access patterns. Will your system be read-heavy (like a news site), write-heavy (like a logging service), or balanced?".

Definition NFR_AND_SCALE_PROMPT : string :=
    "Now let's discuss the non-functional requirements (NFRs), which define the system's quality and scalability."
    +:+ nl +:+ nl +:+ "Let's do a 'back-of-the-envelope' scale estimation. How many daily active users and requests per second are you targeting at launch, and then in one year?"
    +:+ nl +:+ nl +:+ "- **Latency:** What is an acceptable response time for your users? For example, should 95% of requests complete in under 200ms?"
    +:+ nl +:+ "- **Availability:** How critical is uptime? Are you aiming for 'three nines' (99.9% uptime, ~8.7h downtime/year), 'four nines' (99.99%, ~52m downtime/year), or is less availability acceptable initially?"
    +:+ nl +:+ "- **Consistency:** If data is written to the system, does it need to be readable by everyone instantly (strong consistency), or is a small delay acceptable (eventual consistency)?".

Definition ARCHITECTURE_AND_COMPONENTS_PROMPT : string :=
    "With a clear picture of the requirements, let's start sketching a high-level architectural blueprint."
    +:+ nl +:+ nl +:+ "Let's think in terms of major building blocks. We will almost certainly need:"
    +:+ nl +:+ "- A **Client-Facing Interface** (e.g., Web Server, API Gateway)"
    +:+ nl +:+ "- The **Core Business Logic** (e.g., Application Server or Serverless Functions)"
    +:+ nl +:+ "- A **Primary Data Store** (e.g., Database)"
    +:+ nl +:+ nl +:+ "What other supporting services do you foresee? Consider components for:"
    +:+ nl +:+ "- **Traffic Management** (Load Balancers)"
    +:+ nl +:+ "- **Performance** (Caches)"
    +:+ nl +:+ "- **Asynchronous Communication** (Message Queues, Event Buses)"
    +:+ nl +:+ "- **User Identity** (Authentication/Authorization Service)"
    +:+ nl +:+ "- **Intensive Tasks** (Background Workers)".

Definition DEEP_DIVE_AND_TRADEOFFS_PROMPT : string :=
    "This architecture looks promising. The true mark of a great design is understanding its trade-offs. Let's challenge some of our assumptions."
    +:+ nl +:+ nl +:+ "Let's pick a key component we've discussed, like the database. If you were thinking of a relational SQL database, what are the pros and cons of that choice versus a NoSQL alternative (like a document, key-value, or graph store) for this specific use case?"
    +:+ nl +:+ nl +:+ "Now consider how our services will communicate. What are the trade-offs between using synchronous APIs (like REST or gRPC) versus adopting an asynchronous, event-driven pattern for your system's core workflows? When would one be clearly better than the other?".

Definition SUMMARY_PROMPT : string :=
    "We've covered a lot of ground. I will now synthesize our entire discussion, from vision to trade-offs, into a consolidated system design document. Please review it and let me know if there are any gaps or misinterpretations."
    +:+ nl +:+ nl +:+ "Here is the summary of your system design based on our conversation:"
    +:+ nl +:+ nl +:+ "{design_document}".

End Prompts.

Import PyStr Prompts.

(** ** Data model *)

(** (speaker, text) *)
Definition Entry : Type := string * string.

(** [AgentState], also the shape of a stored discussion document. *)
Record AgentState : Type := mkState {
  discussion_id : string;
  conversation_history : list Entry;
  current_phase : string;
  design_document : gmap string string;
  user_command : string
}.

(** The partial state a graph node returns. *)
Record Update : Type := mkUpdate {
  upd_conversation_history : list Entry;
  upd_design_document : option (gmap string string)
}.

(** [current_state.update(latest_step_output)] *)
Definition update (state : AgentState) (u : Update) : AgentState :=
  {| discussion_id := discussion_id state;
     conversation_history := upd_conversation_history u;
     current_phase := current_phase state;
     design_document := default (design_document state) (upd_design_document u);
     user_command := user_command state |}.

Definition set_current_phase (state : AgentState) (p : string) : AgentState :=
  {| discussion_id := discussion_id state;
     conversation_history := conversation_history state;
     current_phase := p;
     design_document := design_document state;
     user_command := user_command state |}.

Definition set_discussion_id (state : AgentState) (i : string) : AgentState :=
  {| discussion_id := i;
     conversation_history := conversation_history state;
     current_phase := current_phase state;
     design_document := design_document state;
     user_command := user_command state |}.

(** Step 2 of [run_agent_stream]: record the command, append the user
    message. *)
Definition with_user_input (state : AgentState) (user_input : string) : AgentState :=
  {| discussion_id := discussion_id state;
     conversation_history := conversation_history state ++ [("user", user_input)];
     current_phase := current_phase state;
     design_document := design_document state;
     user_command := user_input |}.

Inductive BaseMessage : Type :=
  | HumanMessage (content : string)
  | AIMessage (content : string).

Inductive Exc : Type :=
  | IndexError
  | KeyError
  | ValueError
  | InvalidId
  | GraphRecursionError.

Inductive Result (A : Type) : Type :=
  | Ok (a : A)
  | Raise (e : Exc).
Arguments Ok {A} a.
Arguments Raise {A} e.

(** What [run_agent_stream] yields: a graph chunk [{node: update}] or an
    error dictionary. *)
Inductive AgentError : Type :=
  | CouldNotLoad (discussion_id : string)
  | UnexpectedError (e : Exc).

Inductive Yielded : Type :=
  | Chunk (node : string) (u : Update)
  | Error (err : AgentError).

Record LogEntry : Type := mkLog {
  log_node : string;
  log_data : list (string * string)
}.

(** The world outside the agent: the [discussions] and [logs] collections
    and the prompts sent to the language model, oldest first. *)
Record World : Type := mkWorld {
  discussions : gmap string AgentState;
  logs : list LogEntry;
  llm_calls : list (list BaseMessage)
}.

(** ** Generator monad: state, exceptions and yielded values *)

Definition M (A : Type) : Type := World -> list Yielded * Result A * World.

Definition ret {A} (a : A) : M A := fun w => ([], Ok a, w).

Definition raise {A} (e : Exc) : M A := fun w => ([], Raise e, w).

Definition bind {A B} (m : M A) (k : A -> M B) : M B := fun w =>
  match m w with
  | (ys, Ok a, w1) =>
      match k a w1 with
      | (ys', r, w2) => (ys ++ ys', r, w2)
      end
  | (ys, Raise e, w1) => (ys, Raise e, w1)
  end.

Definition yield (y : Yielded) : M unit := fun w => ([y], Ok tt, w).

(** [try: m  except Exception as e: handler e] *)
Definition try_except {A} (m : M A) (handler : Exc -> M A) : M A := fun w =>
  match m w with
  | (ys, Ok a, w1) => (ys, Ok a, w1)
  | (ys, Raise e, w1) =>
      match handler e w1 with
      | (ys', r, w2) => (ys ++ ys', r, w2)
      end
  end.

Notation "x <- m ;; k" := (bind m (fun x => k))
  (at level 100, m at next level, right associativity).
Notation "m ;;; k" := (bind m (fun _ => k))
  (at level 100, right associativity).

(** ** Python list operations used by the router *)

(** [l.index(x)]: position of the first occurrence, [ValueError] when
    there is none. *)
Fixpoint list_index (x : string) (l : list string) : Result Z :=
  match l with
  | [] => Raise ValueError
  | y :: l' =>
      if String.eqb y x then Ok 0%Z
      else match list_index x l' with
           | Ok i => Ok (i + 1)%Z
           | Raise e => Raise e
           end
  end.

(** [l[i]] with Python's negative indices, [IndexError] out of range. *)
Definition getitem {A} (l : list A) (i : Z) : Result A :=
  let n := Z.of_nat (length l) in
  let j := if (i <? 0)%Z then (i + n)%Z else i in
  if (j <? 0)%Z then Raise IndexError
  else match l !! Z.to_nat j with
       | Some a => Ok a
       | None => Raise IndexError
       end.

Definition lift {A} (r : Result A) : M A := fun w => ([], r, w).

(** Lookup in a dictionary kept in insertion order. *)
Fixpoint assoc {A} (k : string) (d : list (string * A)) : option A :=
  match d with
  | [] => None
  | (k', v) :: d' => if String.eqb k' k then Some v else assoc k d'
  end.

(** ** [bson.ObjectId]

    The driver library is not part of the repository.  [ObjectId(s)] on a
    string accepts exactly the strings of 24 characters that
    [bytes.fromhex] can read, and raises [InvalidId] on every other
    string.  [bytes.fromhex] reads two hexadecimal digits per byte and
    skips ASCII whitespace in front of a byte and at the end, so an
    accepted string may stand for fewer than twelve bytes.  [str] of an
    identifier prints its bytes as lowercase digits, the form under which
    the store keys a discussion. *)

(** ASCII whitespace: tab, line feed, vertical tab, form feed, carriage
    return, space. *)
Definition is_ascii_space (c : ascii) : bool :=
  in_range 9 13 (code c) || (code c =? 32)%N.

(** [bytes.fromhex]: the digits read, two per byte; [pending] is the first
    digit of the byte being read. *)
Fixpoint fromhex_from (pending : option ascii) (s : string) : option string :=
  match s with
  | EmptyString =>
      match pending with
      | None => Some EmptyString
      | Some _ => None
      end
  | String c t =>
      match pending with
      | None =>
          if is_ascii_space c then fromhex_from None t
          else if is_hex c then fromhex_from (Some c) t
          else None
      | Some top =>
          if is_hex c
          then match fromhex_from None t with
               | Some digits => Some (String top (String c digits))
               | None => None
               end
          else None
      end
  end.

Definition fromhex (s : string) : option string := fromhex_from None s.

Definition ObjectId (s : string) : Result string :=
  if (String.length s =? 24)%nat
  then match fromhex s with
       | Some digits => Ok (lower digits)
       | None => Raise InvalidId
       end
  else Raise InvalidId.

(** ** [DatabaseManager] ([database.py])

    The manager is connected ([self.db] is not [None]: the constructor
    raises otherwise) and the server answers every operation. *)

Definition write_log (node : string) (data : list (string * string)) : M bool :=
  fun w =>
    ([], Ok true,
     {| discussions := discussions w;
        logs := logs w ++ [mkLog node data];
        llm_calls := llm_calls w |}).

(** [update_one({"_id": id}, {"$set": state}, upsert=True)]; an identifier
    that [ObjectId] rejects is caught and reported as [False]. *)
Definition save_discussion (state : AgentState) : M bool := fun w =>
  match ObjectId (discussion_id state) with
  | Ok oid =>
      ([], Ok true,
       {| discussions := <[oid := state]> (discussions w);
          logs := logs w;
          llm_calls := llm_calls w |})
  | Raise _ => ([], Ok false, w)
  end.

(** [find_one({"_id": id})], with [discussion_id] set from the key; [None]
    when the identifier is rejected or no document has it. *)
Definition load_discussion (discussion_id : string) : M (option AgentState) :=
  fun w =>
    match ObjectId discussion_id with
    | Ok oid =>
        ([], Ok ((fun state => set_discussion_id state oid) <$> discussions w !! oid), w)
    | Raise _ => ([], Ok None, w)
    end.

(** ** LangGraph: state graphs and their execution

    The graph library is not part of the repository; the definitions below
    follow its documented behaviour for the calls [_create_graph] and
    [run_agent_stream] make.

    A compiled [StateGraph] runs its entry node first.  After a node has
    run, its update is written to the graph state and the node's outgoing
    edge selects what runs next: a conditional edge calls its path
    function on the updated state and maps the answer through its path
    map, a plain edge names the target, and a node without outgoing edge
    ends the run.  The path function runs in the step of its node, so an
    exception in either leaves the step without a chunk.  [stream] hands
    out one chunk [{node: update}] per completed step, as the update is
    when the step completes, and raises [GraphRecursionError] when the
    step budget ([recursion_limit], 25 unless configured) is used up before
    [END] is reached.  The state inside the graph is its own: assignments
    the caller makes to the dictionary it passed in do not reach it. *)

Inductive Target : Type :=
  | Node (name : string)
  | END.

Record StateGraph : Type := mkGraph {
  graph_nodes : list (string * (AgentState -> M Update));
  graph_entry : option string;
  graph_branches :
    list (string * ((AgentState -> M string) * list (string * Target)));
  graph_edges : list (string * Target)
}.

Definition empty_graph : StateGraph := mkGraph [] None [] [].

Definition add_node (g : StateGraph) (name : string)
    (action : AgentState -> M Update) : StateGraph :=
  mkGraph (graph_nodes g ++ [(name, action)]) (graph_entry g)
          (graph_branches g) (graph_edges g).

Definition set_entry_point (g : StateGraph) (name : string) : StateGraph :=
  mkGraph (graph_nodes g) (Some name) (graph_branches g) (graph_edges g).

Definition add_conditional_edges (g : StateGraph) (source : string)
    (path : AgentState -> M string) (path_map : list (string * Target))
    : StateGraph :=
  mkGraph (graph_nodes g) (graph_entry g)
          (graph_branches g ++ [(source, (path, path_map))]) (graph_edges g).

Definition add_edge (g : StateGraph) (source : string) (t : Target) : StateGraph :=
  mkGraph (graph_nodes g) (graph_entry g) (graph_branches g)
          (graph_edges g ++ [(source, t)]).

(** The default of the [recursion_limit] configuration key, which
    [run_agent_stream] does not override. *)
Definition recursion_limit : nat := 25.

(** The edge taken out of [name] in graph state [state]. *)
Definition next_target (g : StateGraph) (name : string) (state : AgentState)
    : M Target :=
  match assoc name (graph_branches g) with
  | Some (path, path_map) =>
      r <- path state ;;
      match assoc r path_map with
      | Some t => ret t
      | None => raise KeyError
      end
  | None =>
      match assoc name (graph_edges g) with
      | Some t => ret t
      | None => ret END
      end
  end.

(** One step of the run: the node's action, then its outgoing edge. *)
Definition superstep (g : StateGraph) (name : string) (state : AgentState)
    : M (Update * AgentState * Target) :=
  match assoc name (graph_nodes g) with
  | None => raise KeyError
  | Some action =>
      u <- action state ;;
      let state' := update state u in
      t <- next_target g name state' ;;
      ret (u, state', t)
  end.

(** ** [SystemDesignAgent] ([agent.py]) *)

Section Agent.

(** The chat model behind [self.llm]: the answer to the [n]-th request of
    the process, [None] when the call raises. *)
Variable llm : nat -> list BaseMessage -> option string.

Definition llm_invoke (messages : list BaseMessage) : M (option string) :=
  fun w =>
    ([], Ok (llm (length (llm_calls w)) messages),
     {| discussions := discussions w;
        logs := logs w;
        llm_calls := llm_calls w ++ [messages] |}).

Definition phases : list string :=
  [ "vision_and_scoping";
    "functional_requirements";
    "data_model";
    "nfr_and_scale";
    "architecture_and_components";
    "deep_dive_and_tradeoffs" ].

Definition phase_prompts : list (string * string) :=
  [ ("vision_and_scoping", VISION_AND_SCOPING_PROMPT);
    ("functional_requirements", FUNCTIONAL_REQUIREMENTS_PROMPT);
    ("data_model", DATA_MODEL_PROMPT);
    ("nfr_and_scale", NFR_AND_SCALE_PROMPT);
    ("architecture_and_components", ARCHITECTURE_AND_COMPONENTS_PROMPT);
    ("deep_dive_and_tradeoffs", DEEP_DIVE_AND_TRADEOFFS_PROMPT) ].

Definition _format_history (history : list Entry) : list BaseMessage :=
  map (fun '(speaker, text) =>
         if String.eqb speaker "user" then HumanMessage text else AIMessage text)
      history.

Definition fallback_message : string :=
  "I seem to be having trouble connecting. Could you try your message again?".

(** [history[-1:]] *)
Definition last_slice {A} (l : list A) : list A :=
  match last l with
  | Some x => [x]
  | None => []
  end.

(** The node function [_create_phase_node(phase_name)] returns. *)
Definition phase_node (phase_name : string) (state : AgentState) : M Update :=
  write_log phase_name [("discussion_id", discussion_id state)] ;;;
  last_entry <- lift (getitem (conversation_history state) (-1)) ;;
  let is_new_phase := String.eqb (fst last_entry) "user" in
  let prompt_messages :=
    HumanMessage SYSTEM_PERSONA :: _format_history (conversation_history state) in
  prompt_messages <-
    (if is_new_phase then
       match assoc phase_name phase_prompts with
       | Some p => ret (prompt_messages ++ [HumanMessage p])
       | None => raise KeyError
       end
     else ret prompt_messages) ;;
  response <- llm_invoke prompt_messages ;;
  let ai_message := default fallback_message response in
  let updated_history := conversation_history state ++ [("ai", ai_message)] in
  let current_doc := design_document state in
  let current_doc :=
    <[phase_name :=
        default EmptyString (current_doc !! phase_name) +:+ nl
        +:+ join nl (map snd (last_slice (conversation_history state)))
        +:+ nl +:+ "AI: " +:+ ai_message]> current_doc in
  ret {| upd_conversation_history := updated_history;
         upd_design_document := Some current_doc |}.

Definition _create_phase_node (phase_name : string) : AgentState -> M Update :=
  phase_node phase_name.

(** The routing decision of [_router], without its log entry. *)
Definition route (command current_phase : string) : Result string :=
  if contains "[next]" command then
    match list_index current_phase phases with
    | Ok current_index =>
        let next_index := Z.min (current_index + 1) (Z.of_nat (length phases) - 1) in
        getitem phases next_index
    | Raise e => Raise e
    end
  else if contains "[back]" command then
    match list_index current_phase phases with
    | Ok current_index =>
        let next_index := Z.max (current_index - 1) 0 in
        getitem phases next_index
    | Raise e => Raise e
    end
  else if contains "[summarize]" command then Ok "summarize"
  else if contains "[end]" command || contains "[exit]" command then Ok "end"
  else Ok current_phase.

Definition _router (state : AgentState) : M string :=
  write_log "router" [("command", user_command state)] ;;;
  let command := strip (lower (user_command state)) in
  lift (route command (current_phase state)).

Definition summary_section (document : gmap string string) (phase : string) : string :=
  match document !! phase with
  | Some fragment =>
      "--- " +:+ title (replace "_" " " phase) +:+ " ---" +:+ nl
      +:+ fragment +:+ nl +:+ nl
  | None => EmptyString
  end.

Definition _summary_node (state : AgentState) : M Update :=
  write_log "summary" [("discussion_id", discussion_id state)] ;;;
  let full_document_text :=
    fold_left (fun text phase => text +:+ summary_section (design_document state) phase)
              phases EmptyString in
  response <-
    llm_invoke [HumanMessage (replace "{design_document}" full_document_text SUMMARY_PROMPT)] ;;
  let summary_message :=
    default ("I encountered an error while generating the summary. Here is the raw data:"
             +:+ nl +:+ nl +:+ full_document_text) response in
  ret {| upd_conversation_history :=
           conversation_history state ++ [("ai", summary_message)];
         upd_design_document := None |}.

Definition path_map : list (string * Target) :=
  map (fun p => (p, Node p)) phases ++ [("summarize", Node "summarize"); ("end", END)].

Definition _create_graph : StateGraph :=
  let graph :=
    fold_left (fun g phase_name => add_node g phase_name (_create_phase_node phase_name))
              phases empty_graph in
  let graph := add_node graph "summarize" _summary_node in
  let graph := set_entry_point graph (nth 0 phases EmptyString) in
  let graph := add_conditional_edges graph (nth 0 phases EmptyString) _router path_map in
  let graph :=
    fold_left (fun g i => add_conditional_edges g (nth i phases EmptyString) _router path_map)
              (seq 1 (length phases - 1)) graph in
  add_edge graph "summarize" END.

(** The body of the [for chunk in ...] loop after the [yield]: merge the
    step output, ask the router for the phase to record, persist. *)
Definition persist_step (current_state : AgentState) (latest_step_output : Update)
    : M AgentState :=
  let current_state := update current_state latest_step_output in
  next_phase <- _router current_state ;;
  let current_state :=
    if String.eqb next_phase "end" then current_state
    else set_current_phase current_state next_phase in
  save_discussion current_state ;;;
  ret current_state.

(** [for chunk in self.graph.stream(...)]: the graph produces the chunk of
    its next step, the chunk is yielded and the loop body runs, until the
    graph reaches [END] or has no step left.  [gstate] is the state inside
    the graph, [current_state] the dictionary of [run_agent_stream]. *)
Fixpoint stream_loop (g : StateGraph) (steps : nat) (t : Target)
    (gstate current_state : AgentState) : M unit :=
  match t with
  | END => ret tt
  | Node name =>
      match steps with
      | O => raise GraphRecursionError
      | S steps' =>
          step <- superstep g name gstate ;;
          let '(u, gstate', t') := step in
          yield (Chunk name u) ;;;
          current_state' <- persist_step current_state u ;;
          stream_loop g steps' t' gstate' current_state'
      end
  end.

Definition entry_target (g : StateGraph) : Target :=
  match graph_entry g with
  | Some name => Node name
  | None => END
  end.

Definition new_state (new_id first_phase : string) : AgentState :=
  {| discussion_id := new_id;
     conversation_history := [];
     current_phase := first_phase;
     design_document := ∅;
     user_command := EmptyString |}.

(** [discussion_id] is [None] or a string; the empty string counts as no
    identifier ([if discussion_id:]).  [new_id] is [str(ObjectId())], the
    identifier generated for a new discussion. *)
Definition run_agent_stream (user_input : string) (discussion_id : option string)
    (new_id : string) : M unit :=
  try_except
    (init <-
       match discussion_id with
       | Some (String c s) =>
           current_state <- load_discussion (String c s) ;;
           match current_state with
           | None => yield (Error (CouldNotLoad (String c s))) ;;; ret None
           | Some state => ret (Some state)
           end
       | _ =>
           first_phase <- lift (getitem phases 0) ;;
           ret (Some (new_state new_id first_phase))
       end ;;
     match init with
     | None => ret tt
     | Some current_state =>
         let current_state := with_user_input current_state user_input in
         stream_loop _create_graph recursion_limit (entry_target _create_graph)
                     current_state current_state
     end)
    (fun e => yield (Error (UnexpectedError e))).

End Agent.

(** ** Observations on a turn *)

(** The state a turn starts from: the stored discussion when an identifier
    is supplied, a new discussion otherwise; [None] when the load fails. *)
Definition turn_state (w : World) (discussion_id : option string) (new_id : string)
    : option AgentState :=
  match discussion_id with
  | Some (String c s) =>
      match ObjectId (String c s) with
      | Ok oid => (fun state => set_discussion_id state oid) <$> discussions w !! oid
      | Raise _ => None
      end
  | _ => Some (new_state new_id "vision_and_scoping")
  end.

(** The nodes a turn executed, from the chunks it yielded. *)
Fixpoint nodes_run (ys : list Yielded) : list string :=
  match ys with
  | [] => []
  | Chunk node _ :: ys' => node :: nodes_run ys'
  | Error _ :: ys' => nodes_run ys'
  end.

Definition is_phase (p : string) : bool := bool_decide (p ∈ phases).

(** The phase executions of a turn. *)
Definition phase_executions (ys : list Yielded) : list string :=
  filter (fun node => is_phase node = true) (nodes_run ys).

Record Turn : Type := mkTurn {
  turn_input : string;
  turn_discussion_id : option string;
  turn_new_id : string
}.

Definition starts_new (discussion_id : option string) : bool :=
  match discussion_id with
  | Some (String _ _) => false
  | _ => true
  end.

Section Runs.

Variable llm : nat -> list BaseMessage -> option string.

Definition run_turn (w : World) (t : Turn) : World :=
  (run_agent_stream llm (turn_input t) (turn_discussion_id t) (turn_new_id t) w).2.

Definition run_turns (w : World) (ts : list Turn) : World :=
  fold_left run_turn ts w.

(** Every identifier generated for a new discussion is new to the store
    at the time it is generated. *)
Fixpoint fresh_ids (w : World) (ts : list Turn) : Prop :=
  match ts with
  | [] => True
  | t :: ts' =>
      (starts_new (turn_discussion_id t) = true ->
       forall oid, ObjectId (turn_new_id t) = Ok oid -> discussions w !! oid = None)
      /\ fresh_ids (run_turn w t) ts'
  end.

End Runs.

(** The document fragment stored for [phase] in discussion [oid]; empty
    when there is none. *)
Definition fragment (w : World) (oid phase : string) : string :=
  match discussions w !! oid with
  | Some state => default EmptyString (design_document state !! phase)
  | None => EmptyString
  end.

Definition stored_phase (w : World) (oid : string) : option string :=
  current_phase <$> discussions w !! oid.

Definition phase_or_summarize (p : string) : Prop :=
  p ∈ phases \/ p = "summarize".

Definition empty_world : World := mkWorld ∅ [] [].

Definition no_space (c : ascii) : bool := negb (is_space c).

(** The form of the command the router matches on. *)
Definition normalize (command : string) : string := strip (lower command).

(** *** Closed forms of the node functions *)

Definition logged (w : World) (node : string) (data : list (string * string)) : World :=
  {| discussions := discussions w;
     logs := logs w ++ [mkLog node data];
     llm_calls := llm_calls w |}.

Definition called (w : World) (messages : list BaseMessage) : World :=
  {| discussions := discussions w;
     logs := logs w;
     llm_calls := llm_calls w ++ [messages] |}.

Definition stored (w : World) (oid : string) (state : AgentState) : World :=
  {| discussions := <[oid := state]> (discussions w);
     logs := logs w;
     llm_calls := llm_calls w |}.

Definition guiding_prompt (phase_name : string) : string :=
  default EmptyString (assoc phase_name phase_prompts).

(** The messages a phase node sends for transcript [history]. *)
Definition phase_messages (phase_name : string) (history : list Entry)
    : list BaseMessage :=
  HumanMessage SYSTEM_PERSONA :: _format_history history ++
  match last history with
  | Some (speaker, _) =>
      if String.eqb speaker "user" then [HumanMessage (guiding_prompt phase_name)] else []
  | None => []
  end.

(** The answer used for a request made in world [w]: the model's, or the
    fallback when the call raises. *)
Definition reply_at (llm : nat -> list BaseMessage -> option string)
    (w : World) (messages : list BaseMessage) : string :=
  default fallback_message (llm (length (llm_calls w)) messages).

Definition last_text (history : list Entry) : string :=
  join nl (map snd (last_slice history)).

Definition phase_update (phase_name : string) (state : AgentState) (reply : string)
    : Update :=
  {| upd_conversation_history := conversation_history state ++ [("ai", reply)];
     upd_design_document :=
       Some (<[phase_name :=
                 default EmptyString (design_document state !! phase_name) +:+ nl
                 +:+ last_text (conversation_history state)
                 +:+ nl +:+ "AI: " +:+ reply]> (design_document state)) |}.

(** *** How a discussion evolves during a turn *)

Definition str_prefix (a b : string) : Prop := exists c, b = a +:+ c.

Definition fragment_of (state : AgentState) (phase : string) : string :=
  default EmptyString (design_document state !! phase).

(** One re-evaluation of the router by the loop body: the recorded phase
    moves to the router's answer unless that answer is "end". *)
Definition route_step (command : string) (p p' : string) : Prop :=
  route (normalize command) p = Ok p' /\ p' <> "end".

Record evolves (s s' : AgentState) : Prop := mkEvolves {
  ev_id : discussion_id s' = discussion_id s;
  ev_command : user_command s' = user_command s;
  ev_history : exists more, conversation_history s' = conversation_history s ++ more;
  ev_document : forall phase, str_prefix (fragment_of s phase) (fragment_of s' phase);
  ev_phase : rtc (route_step (user_command s)) (current_phase s) (current_phase s')
}.

(** The graph state and the dictionary of [run_agent_stream] differ at most
    in [current_phase]. *)
Definition agree (gstate current_state : AgentState) : Prop :=
  discussion_id gstate = discussion_id current_state
  /\ conversation_history gstate = conversation_history current_state
  /\ design_document gstate = design_document current_state
  /\ user_command gstate = user_command current_state.

(** A node's update only extends the transcript and the fragments. *)
Definition extends (state : AgentState) (u : Update) : Prop :=
  (exists more, upd_conversation_history u = conversation_history state ++ more)
  /\ forall phase, str_prefix (fragment_of state phase) (fragment_of (update state u) phase).

(** The store changes of a run on the discussion of [current_state]: a
    key is untouched, or it is the key of that discussion and holds a state
    the discussion evolved into. *)
Definition store_step (current_state : AgentState) (w w' : World) : Prop :=
  forall oid,
    discussions w' !! oid = discussions w !! oid
    \/ (ObjectId (discussion_id current_state) = Ok oid
        /\ exists s, discussions w' !! oid = Some s /\ evolves current_state s).

(** The requests to the model are only ever appended. *)
Definition calls_extend (w w' : World) : Prop :=
  exists more, llm_calls w' = llm_calls w ++ more.

(** The summarizer's input text, request and answer. *)
Definition full_document_text (document : gmap string string) : string :=
  fold_left (fun text phase => text +:+ summary_section document phase)
            phases EmptyString.

Definition summary_messages (document : gmap string string) : list BaseMessage :=
  [HumanMessage (replace "{design_document}" (full_document_text document) SUMMARY_PROMPT)].

Definition summary_reply (llm : nat -> list BaseMessage -> option string)
    (w : World) (document : gmap string string) : string :=
  default ("I encountered an error while generating the summary. Here is the raw data:"
           +:+ nl +:+ nl +:+ full_document_text document)
          (llm (length (llm_calls w)) (summary_messages document)).

Definition summary_update (state : AgentState) (message : string) : Update :=
  {| upd_conversation_history := conversation_history state ++ [("ai", message)];
     upd_design_document := None |}.

(** The state the loop body records after a step whose router answer is
    [next_phase]. *)
Definition recorded (current_state : AgentState) (u : Update) (next_phase : string)
    : AgentState :=
  if String.eqb next_phase "end" then update current_state u
  else set_current_phase (update current_state u) next_phase.

(** The handler of the [except] clause around a turn. *)
Definition on_error (e : Exc) : M unit := yield (Error (UnexpectedError e)).

(** A discussion right after its first user message. *)
Definition url_shortener_state : AgentState :=
  {| discussion_id := "0123456789abcdef01234567";
     conversation_history := [("user", "a URL shortener")];
     current_phase := "vision_and_scoping";
     design_document := ∅;
     user_command := "a URL shortener" |}.


(** Example runs: a model that always answers "ok", one generated
    identifier, and a few turns. *)
Definition llm_ok : nat -> list BaseMessage -> option string :=
  fun _ _ => Some "ok".

Definition example_id : string := "0123456789abcdef01234567".

Definition turn_summarize : Turn := mkTurn "[summarize]" None example_id.
Definition turn_end : Turn := mkTurn "[end]" None example_id.
Definition turn_hello : Turn := mkTurn "hello" None example_id.
Definition turn_next_resumed : Turn := mkTurn "[next]" (Some example_id) EmptyString.
Definition turn_more_resumed : Turn := mkTurn "tell me more" (Some example_id) EmptyString.

(** ** [DatabaseManager.get_all_discussions] *)

(** [s[:n]] *)
Fixpoint str_take (n : nat) (s : string) : string :=
  match n, s with
  | S n', String c t => String c (str_take n' t)
  | _, _ => EmptyString
  end.

(** [next((msg for msg in history if msg[0] == "user"), None)] *)
Fixpoint first_user_msg (history : list Entry) : option Entry :=
  match history with
  | [] => None
  | msg :: rest => if String.eqb msg.1 "user" then Some msg else first_user_msg rest
  end.

(** The title the listing gives a stored document. *)
Definition discussion_title (doc : AgentState) : string :=
  match conversation_history doc with
  | [] => "New Discussion"
  | history =>
      match first_user_msg history with
      | Some msg => str_take 50 msg.2 +:+ "..."
      | None => "New Discussion"
      end
  end.


(** ** Further observations *)

(** The key under which a turn saves. *)
Definition turn_key (t : Turn) : option string :=
  match ObjectId (if starts_new (turn_discussion_id t) then turn_new_id t
                  else default EmptyString (turn_discussion_id t)) with
  | Ok oid => Some oid
  | Raise _ => None
  end.

Definition is_chunk (y : Yielded) : bool :=
  match y with
  | Chunk _ _ => true
  | Error _ => false
  end.

Definition keys_are_phases (document : gmap string string) : Prop :=
  forall key, is_Some (document !! key) -> key ∈ phases.

Definition starts_with_user (history : list Entry) : Prop :=
  exists text rest, history = ("user", text) :: rest.

(** The nodes of the graph. *)
Definition is_node (t : Target) : Prop :=
  match t with
  | END => True
  | Node name => name ∈ phases \/ name = "summarize"
  end.

(** How a turn may end: normally, or with one of two exceptions. *)
Definition turn_outcome (r : Result unit) : Prop :=
  r = Ok tt \/ r = Raise ValueError \/ r = Raise GraphRecursionError.

(** A request made after the first one of a turn whose transcript was
    [base] when the first node ran: the persona and a transcript that
    continues [base] with assistant entries only, or the summary request. *)
Definition later_request (base : list Entry) (messages : list BaseMessage) : Prop :=
  (exists more,
     more <> []
     /\ Forall (fun entry => entry.1 = "ai") more
     /\ messages = HumanMessage SYSTEM_PERSONA :: _format_history (base ++ more))
  \/ (exists document, messages = summary_messages document).

(** A discussion with one fragment, about to be summarized. *)
Definition marketing_state : AgentState :=
  {| discussion_id := example_id;
     conversation_history := [("user", "[summarize]")];
     current_phase := "vision_and_scoping";
     design_document := {["vision_and_scoping" := "users are marketers"]};
     user_command := "[summarize]" |}.


(** ** Strings and lists *)

Lemma append_assoc (a b c : string) : (a +:+ b) +:+ c = a +:+ (b +:+ c).
Proof.
  induction a as [|x a IH]; [reflexivity|].
  change (String x ((a +:+ b) +:+ c) = String x (a +:+ (b +:+ c))).
  f_equal. exact IH.
Qed.

Lemma append_nil_r (a : string) : a +:+ EmptyString = a.
Proof.
  induction a as [|x a IH]; [reflexivity|].
  change (String x (a +:+ EmptyString) = String x a).
  f_equal. exact IH.
Qed.

Lemma str_prefix_refl (a : string) : str_prefix a a.
Proof. exists EmptyString. now rewrite append_nil_r. Qed.

Lemma str_prefix_trans (a b c : string) :
  str_prefix a b -> str_prefix b c -> str_prefix a c.
Proof.
  intros [x ->] [y ->]. exists (x +:+ y). apply append_assoc.
Qed.

Lemma str_prefix_empty (a : string) : str_prefix EmptyString a.
Proof. now exists a. Qed.

Lemma str_prefix_length (a b : string) :
  str_prefix a b -> String.length a <= String.length b.
Proof.
  intros [c ->]. induction a as [|x a IH]; [apply Nat.le_0_l|].
  change (S (String.length a) <= S (String.length (a +:+ c))). lia.
Qed.

Lemma getitem_last {A} (l : list A) (x : A) : getitem (l ++ [x]) (-1) = Ok x.
Proof.
  unfold getitem. rewrite length_app. simpl.
  replace (-1 + Z.of_nat (length l + 1))%Z with (Z.of_nat (length l)) by lia.
  destruct (Z.ltb_spec (Z.of_nat (length l)) 0); [lia|].
  rewrite Nat2Z.id.
  rewrite lookup_app_r by lia. now rewrite Nat.sub_diag.
Qed.

Lemma getitem_empty {A} (i : Z) : getitem (@nil A) i = Raise IndexError.
Proof.
  unfold getitem. simpl. destruct (i <? 0)%Z; destruct (_ <? 0)%Z; reflexivity.
Qed.


Lemma nonempty_snoc {A} (l : list A) : l <> [] -> exists l' x, l = l' ++ [x].
Proof.
  intros H. destruct (exists_last H) as (l' & x & ->). eauto.
Qed.

Lemma elem_of_phases (p : string) :
  p ∈ phases ->
  p = "vision_and_scoping" \/ p = "functional_requirements" \/ p = "data_model"
  \/ p = "nfr_and_scale" \/ p = "architecture_and_components"
  \/ p = "deep_dive_and_tradeoffs".
Proof.
  unfold phases. rewrite !elem_of_cons, elem_of_nil. tauto.
Qed.

Ltac each_phase H :=
  apply elem_of_phases in H;
  destruct H as [-> | [-> | [-> | [-> | [-> | ->]]]]].

Ltac phase_mem :=
  unfold phases;
  repeat first [apply list_elem_of_here | apply list_elem_of_further].

Lemma phase_has_prompt (p : string) :
  p ∈ phases -> assoc p phase_prompts = Some (guiding_prompt p).
Proof. intros H. each_phase H; reflexivity. Qed.

(** ** Closed forms *)

Section Core.

Variable llm : nat -> list BaseMessage -> option string.

Lemma phase_node_result (p : string) (state : AgentState) (w : World) :
  p ∈ phases ->
  conversation_history state <> [] ->
  phase_node llm p state w =
    ([],
     Ok (phase_update p state
           (reply_at llm w (phase_messages p (conversation_history state)))),
     called (logged w p [("discussion_id", discussion_id state)])
            (phase_messages p (conversation_history state))).
Proof.
  intros Hp Hne.
  destruct (nonempty_snoc _ Hne) as (h & [speaker text] & Hh).
  unfold phase_node, bind, write_log, lift, phase_messages, phase_update,
    reply_at, last_text, called, logged, llm_invoke, ret.
  rewrite Hh, getitem_last, last_snoc. cbn [fst].
  destruct (String.eqb speaker "user") eqn:Hs.
  - rewrite (phase_has_prompt _ Hp). reflexivity.
  - cbn. rewrite app_nil_r. reflexivity.
Qed.

End Core.

(** ** Tokens typed in a command survive normalization *)

Lemma startswith_lower (t s : string) :
  startswith t s = true -> startswith (lower t) (lower s) = true.
Proof.
  revert s. induction t as [|a t IH]; intros [|b s]; cbn; try easy.
  intros H. apply andb_true_iff in H as [Hab Hts].
  apply Ascii.eqb_eq in Hab as ->. now rewrite Ascii.eqb_refl, IH.
Qed.

Lemma contains_lower (t s : string) :
  contains t s = true -> contains (lower t) (lower s) = true.
Proof.
  induction s as [|b s IH]; cbn [contains lower]; intros H;
    apply orb_true_iff in H as [H | H].
  - apply (startswith_lower t EmptyString) in H. cbn [lower] in H. now rewrite H.
  - discriminate H.
  - apply (startswith_lower t (String b s)) in H. cbn [lower] in H. now rewrite H.
  - rewrite (IH H). apply orb_true_r.
Qed.

Lemma contains_lstrip (a : ascii) (t s : string) :
  is_space a = false ->
  contains (String a t) s = true -> contains (String a t) (lstrip s) = true.
Proof.
  intros Ha. induction s as [|b s IH]; [easy|]. cbn [lstrip].
  destruct (is_space b) eqn:Hb; [|easy].
  cbn [contains startswith]. intros H. apply orb_true_iff in H as [H | H].
  - apply andb_true_iff in H as [Hab _]. apply Ascii.eqb_eq in Hab as ->. congruence.
  - now apply IH.
Qed.

Lemma startswith_rstrip (t s : string) :
  t <> EmptyString ->
  all_chars no_space t = true ->
  startswith t s = true -> startswith t (rstrip s) = true.
Proof.
  revert s. induction t as [|a t IH]; intros [|b s] Hne Hall; cbn; try easy.
  cbn in Hall. apply andb_true_iff in Hall as [Ha Hall].
  intros H. apply andb_true_iff in H as [Hab Hts].
  apply Ascii.eqb_eq in Hab as <-.
  destruct t as [|a' t].
  - destruct (rstrip s); cbn.
    + unfold no_space in Ha. apply negb_true_iff in Ha. rewrite Ha. cbn.
      now rewrite Ascii.eqb_refl.
    + now rewrite Ascii.eqb_refl.
  - assert (Hr : startswith (String a' t) (rstrip s) = true)
      by (apply IH; easy).
    destruct (rstrip s) as [|c r]; [discriminate Hr|].
    cbn [startswith] in Hr |- *. rewrite Ascii.eqb_refl. exact Hr.
Qed.

Lemma contains_rstrip (t s : string) :
  t <> EmptyString ->
  all_chars no_space t = true ->
  contains t s = true -> contains t (rstrip s) = true.
Proof.
  intros Hne Hall. induction s as [|b s IH].
  - easy.
  - intros H. cbn [contains] in H. apply orb_true_iff in H as [H | H].
    + apply (startswith_rstrip _ _ Hne Hall) in H.
      destruct (rstrip (String b s)); cbn [contains]; now rewrite H.
    + specialize (IH H). cbn [rstrip].
      destruct (rstrip s) as [|c r] eqn:Hr.
      * destruct t; [easy | discriminate IH].
      * cbn [contains]. cbn [contains] in IH. rewrite IH. apply orb_true_r.
Qed.

(** A token of lowercase, non-blank characters that occurs in the command
    as typed occurs in the form the router matches on. *)
Lemma token_survives_normalize (t command : string) :
  t <> EmptyString ->
  lower t = t ->
  all_chars no_space t = true ->
  contains t command = true -> contains t (normalize command) = true.
Proof.
  intros Hne Hlow Hall H. unfold normalize, strip.
  apply contains_rstrip; [exact Hne | exact Hall |].
  destruct t as [|a t]; [easy|].
  apply contains_lstrip.
  - cbn in Hall. apply andb_true_iff in Hall as [Ha _].
    now apply negb_true_iff in Ha.
  - rewrite <- Hlow. now apply contains_lower.
Qed.
(** ** The command router *)

Lemma router_result (state : AgentState) (w : World) :
  _router state w =
    ([], route (normalize (user_command state)) (current_phase state),
     {| discussions := discussions w;
        logs := logs w ++ [mkLog "router" [("command", user_command state)]];
        llm_calls := llm_calls w |}).
Proof. reflexivity. Qed.

Lemma route_free_form (command p : string) :
  contains "[next]" command = false ->
  contains "[back]" command = false ->
  contains "[summarize]" command = false ->
  contains "[end]" command = false ->
  contains "[exit]" command = false ->
  route command p = Ok p.
Proof.
  intros Hn Hb Hs He Hx. unfold route.
  rewrite Hn, Hb, Hs, He, Hx. reflexivity.
Qed.

(** C4: whatever the current phase, a command whose lowercased, trimmed
    form contains none of the tokens [next], [back], [summarize], [end],
    [exit] makes the router return the current phase unchanged. *)
Theorem router_free_form_keeps_phase (state : AgentState) (w : World) :
  contains "[next]" (strip (lower (user_command state))) = false ->
  contains "[back]" (strip (lower (user_command state))) = false ->
  contains "[summarize]" (strip (lower (user_command state))) = false ->
  contains "[end]" (strip (lower (user_command state))) = false ->
  contains "[exit]" (strip (lower (user_command state))) = false ->
  (_router state w).1.2 = Ok (current_phase state).
Proof.
  intros Hn Hb Hs He Hx. rewrite router_result. simpl.
  apply route_free_form; assumption.
Qed.

Lemma router_free_form_keeps_phase_witness :
  (_router (mkState "0123456789abcdef01234567" [("user", "  Tell me MORE ")]
                    "data_model" ∅ "  Tell me MORE ") empty_world).1.2
  = Ok "data_model".
Proof.
  apply (router_free_form_keeps_phase
           (mkState "0123456789abcdef01234567" [("user", "  Tell me MORE ")]
                    "data_model" ∅ "  Tell me MORE ") empty_world);
    reflexivity.
Defined.

(** C5, as amended: the router clamps without raising.  In the last phase
    a command containing [next] yields the last phase; in the first phase
    a command containing [back] and not [next] yields the first phase. *)
Theorem router_clamps_at_both_ends (state : AgentState) (w : World) :
  (contains "[next]" (strip (lower (user_command state))) = true ->
   current_phase state = "deep_dive_and_tradeoffs" ->
   (_router state w).1.2 = Ok "deep_dive_and_tradeoffs")
  /\
  (contains "[back]" (strip (lower (user_command state))) = true ->
   contains "[next]" (strip (lower (user_command state))) = false ->
   current_phase state = "vision_and_scoping" ->
   (_router state w).1.2 = Ok "vision_and_scoping").
Proof.
  rewrite router_result. simpl. unfold normalize, route. split.
  - intros Hn Hp. rewrite Hn, Hp. reflexivity.
  - intros Hb Hn Hp. rewrite Hn, Hb, Hp. reflexivity.
Qed.

Lemma router_clamps_at_both_ends_witness :
  (_router (mkState "0123456789abcdef01234567" [] "deep_dive_and_tradeoffs" ∅
                    "ok [NEXT] please") empty_world).1.2
    = Ok "deep_dive_and_tradeoffs"
  /\
  (_router (mkState "0123456789abcdef01234567" [] "vision_and_scoping" ∅
                    " [Back] ") empty_world).1.2
    = Ok "vision_and_scoping".
Proof.
  split.
  - apply (proj1 (router_clamps_at_both_ends
             (mkState "0123456789abcdef01234567" [] "deep_dive_and_tradeoffs" ∅
                      "ok [NEXT] please") empty_world)); reflexivity.
  - apply (proj2 (router_clamps_at_both_ends
             (mkState "0123456789abcdef01234567" [] "vision_and_scoping" ∅
                      " [Back] ") empty_world)); reflexivity.
Defined.

(** C5 as stated fails: in the first phase the command "[next] [back]"
    contains [back], and the router returns the second phase. *)
Lemma router_back_in_first_phase_counterexample :
  let state := mkState "0123456789abcdef01234567" [] "vision_and_scoping" ∅
                       "[next] [back]" in
  current_phase state = nth 0 phases EmptyString
  /\ contains "[back]" (strip (lower (user_command state))) = true
  /\ (_router state empty_world).1.2 = Ok "functional_requirements"
  /\ (_router state empty_world).1.2 <> Ok (nth 0 phases EmptyString).
Proof.
  repeat split; try reflexivity. discriminate.
Qed.

Section Graph.

Variable llm : nat -> list BaseMessage -> option string.

Lemma summary_node_result (state : AgentState) (w : World) :
  _summary_node llm state w =
    ([],
     Ok (summary_update state (summary_reply llm w (design_document state))),
     called (logged w "summary" [("discussion_id", discussion_id state)])
            (summary_messages (design_document state))).
Proof. reflexivity. Qed.

Lemma phase_node_empty (p : string) (state : AgentState) (w : World) :
  conversation_history state = [] ->
  phase_node llm p state w =
    ([], Raise IndexError, logged w p [("discussion_id", discussion_id state)]).
Proof.
  intros H. unfold phase_node, bind, write_log, lift, logged.
  rewrite H, getitem_empty. reflexivity.
Qed.

Lemma graph_node_phase (p : string) :
  p ∈ phases -> assoc p (graph_nodes (_create_graph llm)) = Some (phase_node llm p).
Proof. intros H. each_phase H; reflexivity. Qed.

Lemma graph_node_summarize :
  assoc "summarize" (graph_nodes (_create_graph llm)) = Some (_summary_node llm).
Proof. reflexivity. Qed.

Lemma assoc_cons_inv {A} (k k' : string) (v : A) (d : list (string * A)) (x : A) :
  assoc k ((k', v) :: d) = Some x -> (k = k' /\ x = v) \/ assoc k d = Some x.
Proof.
  simpl. destruct (String.eqb_spec k' k) as [-> | _].
  - intros [= <-]. now left.
  - now right.
Qed.

Lemma graph_node_inv (name : string) (action : AgentState -> M Update) :
  assoc name (graph_nodes (_create_graph llm)) = Some action ->
  (name ∈ phases /\ action = phase_node llm name)
  \/ (name = "summarize" /\ action = _summary_node llm).
Proof.
  change (graph_nodes (_create_graph llm)) with
    [ ("vision_and_scoping", phase_node llm "vision_and_scoping");
      ("functional_requirements", phase_node llm "functional_requirements");
      ("data_model", phase_node llm "data_model");
      ("nfr_and_scale", phase_node llm "nfr_and_scale");
      ("architecture_and_components", phase_node llm "architecture_and_components");
      ("deep_dive_and_tradeoffs", phase_node llm "deep_dive_and_tradeoffs");
      ("summarize", _summary_node llm) ].
  intros H.
  repeat (apply assoc_cons_inv in H;
          destruct H as [[-> ->] | H];
          [ first [ left; split; [unfold phases; set_solver | reflexivity]
                  | right; split; reflexivity ] | ]).
  discriminate H.
Qed.

Lemma graph_branch_phase (p : string) :
  p ∈ phases ->
  assoc p (graph_branches (_create_graph llm)) = Some (_router, path_map).
Proof. intros H. each_phase H; reflexivity. Qed.

Lemma graph_branch_summarize :
  assoc "summarize" (graph_branches (_create_graph llm)) = None
  /\ assoc "summarize" (graph_edges (_create_graph llm)) = Some END.
Proof. split; reflexivity. Qed.

Lemma path_map_phase (p : string) : p ∈ phases -> assoc p path_map = Some (Node p).
Proof. intros H. each_phase H; reflexivity. Qed.

(** *** One graph step *)

Lemma superstep_phase (p : string) (gstate : AgentState) (w : World) :
  p ∈ phases ->
  conversation_history gstate <> [] ->
  superstep (_create_graph llm) p gstate w =
    let messages := phase_messages p (conversation_history gstate) in
    let u := phase_update p gstate (reply_at llm w messages) in
    let w' :=
      logged (called (logged w p [("discussion_id", discussion_id gstate)]) messages)
             "router" [("command", user_command gstate)] in
    match route (normalize (user_command gstate)) (current_phase gstate) with
    | Ok r =>
        match assoc r path_map with
        | Some t => ([], Ok (u, update gstate u, t), w')
        | None => ([], Raise KeyError, w')
        end
    | Raise e => ([], Raise e, w')
    end.
Proof.
  intros Hp Hne. unfold superstep.
  rewrite (graph_node_phase _ Hp). unfold bind at 1.
  rewrite (phase_node_result llm _ _ _ Hp Hne).
  unfold next_target. rewrite (graph_branch_phase _ Hp).
  unfold bind. rewrite router_result. cbn [update user_command current_phase].
  unfold normalize, logged.
  destruct (route _ _) as [r | e]; [|reflexivity].
  destruct (assoc r path_map); reflexivity.
Qed.

Lemma superstep_summarize (gstate : AgentState) (w : World) :
  superstep (_create_graph llm) "summarize" gstate w =
    let u := summary_update gstate (summary_reply llm w (design_document gstate)) in
    ([], Ok (u, update gstate u, END),
     called (logged w "summary" [("discussion_id", discussion_id gstate)])
            (summary_messages (design_document gstate))).
Proof. reflexivity. Qed.

(** *** The loop body *)

Lemma persist_step_result (current_state : AgentState) (u : Update) (w : World) :
  persist_step current_state u w =
    let w1 := logged w "router" [("command", user_command current_state)] in
    match route (normalize (user_command current_state)) (current_phase current_state) with
    | Ok next_phase =>
        let state' := recorded current_state u next_phase in
        ([], Ok state', (save_discussion state' w1).2)
    | Raise e => ([], Raise e, w1)
    end.
Proof.
  unfold persist_step, bind. rewrite router_result.
  cbn [update user_command current_phase]. unfold normalize, logged, recorded.
  destruct (route _ _) as [r | e]; [|reflexivity].
  unfold save_discussion.
  destruct (String.eqb r "end"); destruct (ObjectId _); reflexivity.
Qed.

End Graph.

(** ** What a turn does to the store *)

Lemma evolves_refl (s : AgentState) : evolves s s.
Proof.
  split; try reflexivity.
  - exists []. now rewrite app_nil_r.
  - intros phase. apply str_prefix_refl.
Qed.

Lemma evolves_trans (s1 s2 s3 : AgentState) :
  evolves s1 s2 -> evolves s2 s3 -> evolves s1 s3.
Proof.
  intros [Hi1 Hc1 [m1 Hh1] Hd1 Hp1] [Hi2 Hc2 [m2 Hh2] Hd2 Hp2]. split.
  - congruence.
  - congruence.
  - exists (m1 ++ m2). rewrite Hh2, Hh1. now rewrite app_assoc.
  - intros phase. eapply str_prefix_trans; [apply Hd1 | apply Hd2].
  - rewrite Hc1 in Hp2. eapply rtc_trans; eassumption.
Qed.

Lemma extends_phase_update (p : string) (state : AgentState) (reply : string) :
  extends state (phase_update p state reply).
Proof.
  split.
  - now exists [("ai", reply)].
  - intros phase. unfold fragment_of, update, phase_update. cbn.
    destruct (decide (p = phase)) as [-> | Hne].
    + rewrite lookup_insert_eq. cbn. eexists. reflexivity.
    + rewrite lookup_insert_ne by assumption. apply str_prefix_refl.
Qed.

Lemma extends_summary_update (state : AgentState) (message : string) :
  extends state (summary_update state message).
Proof.
  split.
  - now exists [("ai", message)].
  - intros phase. apply str_prefix_refl.
Qed.

Lemma calls_extend_refl (w : World) : calls_extend w w.
Proof. exists []. now rewrite app_nil_r. Qed.

Lemma calls_extend_eq (w w' : World) :
  llm_calls w' = llm_calls w -> calls_extend w w'.
Proof. intros H. exists []. now rewrite app_nil_r. Qed.

Lemma calls_extend_trans (w1 w2 w3 : World) :
  calls_extend w1 w2 -> calls_extend w2 w3 -> calls_extend w1 w3.
Proof.
  intros [a Ha] [b Hb]. exists (a ++ b). rewrite Hb, Ha. now rewrite app_assoc.
Qed.

Lemma store_step_same (s : AgentState) (w w' : World) :
  discussions w' = discussions w -> store_step s w w'.
Proof. intros H oid. left. now rewrite H. Qed.

Lemma evolves_recorded (gstate current_state : AgentState) (u : Update)
    (next_phase : string) :
  agree gstate current_state ->
  extends gstate u ->
  route (normalize (user_command current_state)) (current_phase current_state)
    = Ok next_phase ->
  evolves current_state (recorded current_state u next_phase)
  /\ agree (update gstate u) (recorded current_state u next_phase).
Proof.
  intros (Hi & Hh & Hd & Hc) [[more Hmore] Hfrag] Hr.
  assert (Hup : evolves current_state (update current_state u)).
  { split; try reflexivity.
    - exists more. cbn. now rewrite <- Hh.
    - intros phase. specialize (Hfrag phase).
      unfold fragment_of, update in *. cbn in *. now rewrite <- Hd.
  }
  assert (Hag : agree (update gstate u) (update current_state u)).
  { unfold agree, update. cbn. rewrite Hd. auto. }
  unfold recorded. destruct (String.eqb_spec next_phase "end") as [He | He].
  - split; assumption.
  - split; [|exact Hag].
    destruct Hup as [H1 H2 H3 H4 H5]. split; try assumption.
    cbn. eapply rtc_r; [exact H5|]. cbn. split; assumption.
Qed.

Section Effects.

Variable llm : nat -> list BaseMessage -> option string.

Lemma superstep_effect (name : string) (gstate : AgentState) (w : World) :
  (superstep (_create_graph llm) name gstate w).1.1 = []
  /\ discussions (superstep (_create_graph llm) name gstate w).2 = discussions w
  /\ calls_extend w (superstep (_create_graph llm) name gstate w).2
  /\ forall u gstate' t,
       (superstep (_create_graph llm) name gstate w).1.2 = Ok (u, gstate', t) ->
       gstate' = update gstate u /\ extends gstate u.
Proof.
  destruct (assoc name (graph_nodes (_create_graph llm))) as [action|] eqn:E.
  - apply graph_node_inv in E. destruct E as [[Hp _] | [-> _]].
    + destruct (decide (conversation_history gstate = [])) as [Hnil | Hne].
      * unfold superstep. rewrite (graph_node_phase _ _ Hp). unfold bind.
        rewrite (phase_node_empty _ _ _ _ Hnil). cbn.
        split; [reflexivity | split; [reflexivity | split]];
          [now apply calls_extend_eq | discriminate].
      * rewrite (superstep_phase _ _ _ _ Hp Hne). cbv zeta.
        assert (Hc : forall m d d', calls_extend w
                   (logged (called (logged w name d) m) "router" d')).
        { intros m d d'. exists [m]. reflexivity. }
        destruct (route _ _) as [r | e]; [destruct (assoc r path_map)|]; cbn;
          (split; [reflexivity | split; [reflexivity | split]];
           [apply Hc | try discriminate]).
        intros u g' t' [= <- <- _]. split; [reflexivity|].
        apply extends_phase_update.
    + rewrite superstep_summarize. cbn.
      split; [reflexivity | split; [reflexivity | split]].
      * now eexists.
      * intros u g' t' [= <- <- _]. split; [reflexivity|].
        apply extends_summary_update.
  - unfold superstep. rewrite E. cbn.
    split; [reflexivity | split; [reflexivity | split]];
      [apply calls_extend_refl | discriminate].
Qed.

Lemma save_discussion_effect (state : AgentState) (w : World) :
  llm_calls (save_discussion state w).2 = llm_calls w
  /\ forall oid,
       discussions (save_discussion state w).2 !! oid = discussions w !! oid
       \/ (ObjectId (discussion_id state) = Ok oid
           /\ discussions (save_discussion state w).2 !! oid = Some state).
Proof.
  unfold save_discussion. destruct (ObjectId (discussion_id state)) as [k | e]; cbn.
  - split; [reflexivity|]. intros oid. destruct (decide (k = oid)) as [-> | Hne].
    + right. split; [reflexivity | apply lookup_insert_eq].
    + left. now apply lookup_insert_ne.
  - split; [reflexivity | now left].
Qed.

Lemma stream_loop_step (g : StateGraph) (n : nat) (name : string)
    (gstate current_state : AgentState) (w : World) :
  stream_loop g (S n) (Node name) gstate current_state w =
    match superstep g name gstate w with
    | (ys, Ok (u, gstate', t'), w1) =>
        match persist_step current_state u w1 with
        | (ys2, Ok current_state', w2) =>
            match stream_loop g n t' gstate' current_state' w2 with
            | (ys3, r, w3) => (ys ++ [Chunk name u] ++ ys2 ++ ys3, r, w3)
            end
        | (ys2, Raise e, w2) => (ys ++ [Chunk name u] ++ ys2, Raise e, w2)
        end
    | (ys, Raise e, w1) => (ys, Raise e, w1)
    end.
Proof.
  cbn [stream_loop]. unfold bind, yield.
  destruct (superstep g name gstate w) as [[ys [[[u g'] t'] | e]] w1];
    [|reflexivity].
  destruct (persist_step current_state u w1) as [[ys2 [c | e]] w2];
    [|reflexivity].
  destruct (stream_loop g n t' g' c w2) as [[ys3 r] w3]. reflexivity.
Qed.

Theorem stream_loop_effect (steps : nat) :
  forall (t : Target) (gstate current_state : AgentState) (w : World),
    agree gstate current_state ->
    store_step current_state w
      (stream_loop (_create_graph llm) steps t gstate current_state w).2
    /\ calls_extend w
      (stream_loop (_create_graph llm) steps t gstate current_state w).2.
Proof.
  induction steps as [|n IH]; intros [name|] gstate cur w Hag;
    try (cbn; split; [now apply store_step_same | apply calls_extend_refl]).
  rewrite stream_loop_step.
  destruct (superstep_effect name gstate w) as (Hys & Hd & Hc & Hu).
  destruct (superstep (_create_graph llm) name gstate w) as [[ys1 r1] w1].
  cbn in Hys, Hd, Hc, Hu. subst ys1.
  destruct r1 as [[[u gstate'] t'] | e]; cbv beta iota;
    [| split; [now apply store_step_same | exact Hc]].
  destruct (Hu u gstate' t' eq_refl) as [-> Hext].
  rewrite persist_step_result. cbv zeta.
  destruct (route (normalize (user_command cur)) (current_phase cur))
    as [next_phase | e] eqn:Hr; cbv beta iota;
    [| split; [now apply store_step_same | exact Hc]].
  destruct (evolves_recorded _ _ _ _ Hag Hext Hr) as [Hev Hag'].
  set (cur' := recorded cur u next_phase) in *.
  set (w1' := logged w1 "router" [("command", user_command cur)]).
  destruct (save_discussion_effect cur' w1') as [Hsc Hsd].
  specialize (IH t' (update gstate u) cur' (save_discussion cur' w1').2 Hag').
  destruct (stream_loop (_create_graph llm) n t' (update gstate u) cur'
              (save_discussion cur' w1').2) as [[ys3 r3] w3].
  cbn in IH |- *. destruct IH as [Hstore Hcalls]. split.
  - intros oid. destruct (Hstore oid) as [Hsame | (Hk & s & Hs & Hes)].
    + destruct (Hsd oid) as [Hsame' | [Hk Hs]].
      * left. rewrite Hsame, Hsame'. cbn. now rewrite Hd.
      * right. split.
        -- rewrite <- (ev_id _ _ Hev). exact Hk.
        -- exists cur'. split; [now rewrite Hsame | exact Hev].
    + right. split.
      * rewrite <- (ev_id _ _ Hev). exact Hk.
      * exists s. split; [exact Hs | eapply evolves_trans; eassumption].
  - eapply calls_extend_trans; [exact Hc|].
    eapply calls_extend_trans; [|exact Hcalls].
    now apply calls_extend_eq.
Qed.

End Effects.

(** ** Turns *)

Section Turns.

Variable llm : nat -> list BaseMessage -> option string.

Lemma bind_ok {A B} (m : M A) (k : A -> M B) (w w1 : World) (a : A) :
  m w = ([], Ok a, w1) -> bind m k w = k a w1.
Proof.
  intros H. unfold bind. rewrite H. destruct (k a w1) as [[ys r] w2]. reflexivity.
Qed.

Lemma run_agent_stream_started (user_input : string) (requested_id : option string)
    (new_id : string) (w : World) (state : AgentState) :
  turn_state w requested_id new_id = Some state ->
  run_agent_stream llm user_input requested_id new_id w =
    try_except
      (stream_loop (_create_graph llm) recursion_limit (Node "vision_and_scoping")
                   (with_user_input state user_input)
                   (with_user_input state user_input))
      on_error w.
Proof.
  intros H. unfold run_agent_stream, try_except.
  rewrite (bind_ok _ _ w w (Some state)); [reflexivity|].
  unfold turn_state in H. destruct requested_id as [[|c s]|].
  - injection H as <-. reflexivity.
  - unfold bind, load_discussion.
    destruct (ObjectId (String c s)) as [oid | e]; [|discriminate].
    destruct (discussions w !! oid) as [stored_state|]; [|discriminate].
    injection H as <-. reflexivity.
  - injection H as <-. reflexivity.
Qed.

Lemma run_agent_stream_not_found (user_input : string) (c : ascii) (s : string)
    (new_id : string) (w : World) :
  turn_state w (Some (String c s)) new_id = None ->
  run_agent_stream llm user_input (Some (String c s)) new_id w =
    ([Error (CouldNotLoad (String c s))], Ok tt, w).
Proof.
  unfold turn_state, run_agent_stream, try_except, bind, load_discussion.
  destruct (ObjectId (String c s)) as [oid | e]; [|reflexivity].
  destruct (discussions w !! oid) as [stored_state|]; [discriminate|].
  reflexivity.
Qed.

Lemma try_except_world (m : M unit) (w : World) :
  (try_except m on_error w).2 = (m w).2.
Proof.
  unfold try_except. destruct (m w) as [[ys [a | e]] w1]; reflexivity.
Qed.

Lemma turn_effect (user_input : string) (requested_id : option string)
    (new_id : string) (w : World) (state : AgentState) :
  turn_state w requested_id new_id = Some state ->
  store_step (with_user_input state user_input) w
    (run_agent_stream llm user_input requested_id new_id w).2
  /\ calls_extend w (run_agent_stream llm user_input requested_id new_id w).2.
Proof.
  intros H. rewrite (run_agent_stream_started _ _ _ _ _ H), try_except_world.
  apply stream_loop_effect. repeat split.
Qed.

Lemma turn_without_state (user_input : string) (requested_id : option string)
    (new_id : string) (w : World) :
  turn_state w requested_id new_id = None ->
  (run_agent_stream llm user_input requested_id new_id w).2 = w.
Proof.
  destruct requested_id as [[|c s]|]; try discriminate.
  intros H. now rewrite run_agent_stream_not_found.
Qed.

End Turns.

(** ** Loading a discussion *)

(** Identifiers as the driver reads them: letter case and whitespace
    between bytes do not matter, anything else is rejected. *)
Lemma ObjectId_reads_hex_bytes :
  ObjectId "0123456789ABCDEF01234567" = Ok "0123456789abcdef01234567"
  /\ ObjectId "00 00 00 00 00 00 00 00 " = Ok "0000000000000000"
  /\ ObjectId "0 0 00 00 00 00 00 00 00" = Raise InvalidId
  /\ ObjectId "0000000000000000" = Raise InvalidId
  /\ ObjectId "not-an-id" = Raise InvalidId.
Proof. repeat split; reflexivity. Qed.

(** C9: a load with a malformed or unknown identifier returns [None]
    without raising and leaves the world as it was; the orchestrator, which
    issues a load exactly when the identifier is non-empty, then yields the
    single could-not-load error and changes no discussion. *)
Theorem load_absent_is_reported (llm : nat -> list BaseMessage -> option string)
    (user_input discussion_id new_id : string) (w : World) :
  (ObjectId discussion_id = Raise InvalidId
   \/ exists oid, ObjectId discussion_id = Ok oid /\ discussions w !! oid = None) ->
  load_discussion discussion_id w = ([], Ok None, w)
  /\ (discussion_id <> EmptyString ->
      run_agent_stream llm user_input (Some discussion_id) new_id w =
        ([Error (CouldNotLoad discussion_id)], Ok tt, w)).
Proof.
  intros H.
  assert (Hload : load_discussion discussion_id w = ([], Ok None, w)).
  { unfold load_discussion. destruct H as [-> | (oid & -> & Hnone)].
    - reflexivity.
    - now rewrite Hnone. }
  split; [exact Hload|].
  intros Hne. destruct discussion_id as [|c s]; [congruence|].
  apply run_agent_stream_not_found. unfold turn_state.
  destruct H as [-> | (oid & -> & Hnone)]; [reflexivity | now rewrite Hnone].
Qed.

Lemma load_absent_is_reported_witness :
  load_discussion "not-an-id" empty_world = ([], Ok None, empty_world)
  /\ ("not-an-id" <> EmptyString ->
      run_agent_stream (fun _ _ => Some "ok") "hello" (Some "not-an-id")
                       "0123456789abcdef01234567" empty_world =
        ([Error (CouldNotLoad "not-an-id")], Ok tt, empty_world)).
Proof.
  apply (load_absent_is_reported (fun _ _ => Some "ok") "hello" "not-an-id"
           "0123456789abcdef01234567" empty_world).
  left. reflexivity.
Defined.

(** ** The phase turn processor *)

(** C6: when the model call of a phase execution raises, the node returns
    normally and its transcript is the previous one followed by exactly one
    "ai" entry carrying the fallback text. *)
Theorem phase_node_survives_llm_failure
    (llm : nat -> list BaseMessage -> option string)
    (p : string) (state : AgentState) (w : World) :
  p ∈ phases ->
  conversation_history state <> [] ->
  llm (length (llm_calls w)) (phase_messages p (conversation_history state)) = None ->
  exists document w',
    phase_node llm p state w =
      ([],
       Ok {| upd_conversation_history :=
               conversation_history state ++ [("ai", fallback_message)];
             upd_design_document := Some document |},
       w').
Proof.
  intros Hp Hne Hfail. rewrite (phase_node_result llm _ _ _ Hp Hne).
  unfold reply_at. rewrite Hfail. unfold phase_update. cbn [default].
  eexists. eexists. reflexivity.
Qed.

Lemma phase_node_survives_llm_failure_witness :
  exists document w',
    phase_node (fun _ _ => None) "functional_requirements"
      (mkState "0123456789abcdef01234567" [("user", "we need login")]
               "functional_requirements" ∅ "we need login") empty_world =
      ([],
       Ok {| upd_conversation_history :=
               [("user", "we need login")] ++ [("ai", fallback_message)];
             upd_design_document := Some document |},
       w').
Proof.
  apply (phase_node_survives_llm_failure (fun _ _ => None) "functional_requirements"
           (mkState "0123456789abcdef01234567" [("user", "we need login")]
                    "functional_requirements" ∅ "we need login") empty_world).
  - unfold phases. set_solver.
  - discriminate.
  - reflexivity.
Defined.


(** ** The first step of a turn *)

Section FirstStep.

Variable llm : nat -> list BaseMessage -> option string.

Lemma entry_phase : "vision_and_scoping" ∈ phases.
Proof. unfold phases. set_solver. Qed.

Lemma user_input_nonempty (state : AgentState) (user_input : string) :
  conversation_history (with_user_input state user_input) <> [].
Proof. cbn. intros E. now apply app_nil in E as [_ E]. Qed.

Lemma phase_messages_after_user (p : string) (history : list Entry) (text : string) :
  phase_messages p (history ++ [("user", text)]) =
    HumanMessage SYSTEM_PERSONA :: _format_history (history ++ [("user", text)])
    ++ [HumanMessage (guiding_prompt p)].
Proof. unfold phase_messages. now rewrite last_snoc. Qed.

Lemma stream_loop_first_call (n : nat) (p : string)
    (gstate current_state : AgentState) (w : World) :
  p ∈ phases ->
  conversation_history gstate <> [] ->
  agree gstate current_state ->
  exists more,
    llm_calls (stream_loop (_create_graph llm) (S n) (Node p) gstate current_state w).2
    = llm_calls w ++ phase_messages p (conversation_history gstate) :: more.
Proof.
  intros Hp Hne Hag. rewrite stream_loop_step, (superstep_phase _ _ _ _ Hp Hne).
  cbv zeta.
  destruct (route (normalize (user_command gstate)) (current_phase gstate))
    as [r | e]; [destruct (assoc r path_map) as [t|]|]; cbv beta iota;
    try (exists []; reflexivity).
  rewrite persist_step_result. cbv zeta.
  destruct (route (normalize (user_command current_state)) (current_phase current_state))
    as [next_phase | e] eqn:Hr; cbv beta iota; [|exists []; reflexivity].
  match goal with
  | |- context [stream_loop ?g n t ?gs ?cs ?w2] =>
      assert (Hc : calls_extend w2 (stream_loop g n t gs cs w2).2);
      [ apply stream_loop_effect;
        eapply evolves_recorded; [exact Hag | apply extends_phase_update | exact Hr]
      | destruct (stream_loop g n t gs cs w2) as [[ys3 r3] w3] ]
  end.
  destruct Hc as [more Hmore]. exists more. cbn in Hmore |- *.
  rewrite Hmore.
  destruct (save_discussion_effect
              (recorded current_state
                 (phase_update p gstate
                    (reply_at llm w (phase_messages p (conversation_history gstate))))
                 next_phase)
              (logged
                 (logged
                    (called (logged w p [("discussion_id", discussion_id gstate)])
                       (phase_messages p (conversation_history gstate))) "router"
                    [("command", user_command gstate)]) "router"
                 [("command", user_command current_state)])) as [Hs _].
  rewrite Hs. cbn. now rewrite <- app_assoc.
Qed.

(** C10: in every turn that starts, the transcript ends with the user
    message just appended when the first node runs, and the first request
    the turn sends to the model is the persona, the transcript and then the
    guiding prompt of the node's phase, the first one. *)
Theorem first_execution_sends_guiding_prompt
    (user_input : string) (requested_id : option string) (new_id : string)
    (w : World) (state : AgentState) :
  turn_state w requested_id new_id = Some state ->
  last (conversation_history (with_user_input state user_input))
    = Some ("user", user_input)
  /\ assoc (nth 0 phases EmptyString) phase_prompts = Some VISION_AND_SCOPING_PROMPT
  /\ exists more,
       llm_calls (run_agent_stream llm user_input requested_id new_id w).2
       = llm_calls w
         ++ (HumanMessage SYSTEM_PERSONA
             :: _format_history (conversation_history state ++ [("user", user_input)])
             ++ [HumanMessage VISION_AND_SCOPING_PROMPT])
         :: more.
Proof.
  intros H. split; [cbn; apply last_snoc|]. split; [reflexivity|].
  rewrite (run_agent_stream_started _ _ _ _ _ _ H), try_except_world.
  change recursion_limit with (S 24).
  destruct (stream_loop_first_call 24 "vision_and_scoping"
              (with_user_input state user_input) (with_user_input state user_input) w
              entry_phase (user_input_nonempty _ _)) as [more Hmore].
  { repeat split. }
  exists more. rewrite Hmore. cbn [conversation_history with_user_input].
  now rewrite phase_messages_after_user.
Qed.

End FirstStep.

Lemma first_execution_sends_guiding_prompt_witness :
  last (conversation_history
          (with_user_input (new_state "0123456789abcdef01234567" "vision_and_scoping")
                           "a URL shortener"))
    = Some ("user", "a URL shortener")
  /\ assoc (nth 0 phases EmptyString) phase_prompts = Some VISION_AND_SCOPING_PROMPT
  /\ exists more,
       llm_calls (run_agent_stream (fun _ _ => Some "ok") "a URL shortener" None
                    "0123456789abcdef01234567" empty_world).2
       = llm_calls empty_world
         ++ (HumanMessage SYSTEM_PERSONA
             :: _format_history
                  (conversation_history
                     (new_state "0123456789abcdef01234567" "vision_and_scoping")
                   ++ [("user", "a URL shortener")])
             ++ [HumanMessage VISION_AND_SCOPING_PROMPT])
         :: more.
Proof.
  apply (first_execution_sends_guiding_prompt (fun _ _ => Some "ok")
           "a URL shortener" None "0123456789abcdef01234567" empty_world
           (new_state "0123456789abcdef01234567" "vision_and_scoping")).
  reflexivity.
Defined.

(** ** What a phase execution appends *)

Section Appended.

Variable llm : nat -> list BaseMessage -> option string.



End Appended.


(** ** Turns that the router ends *)

Section EndTurn.

Variable llm : nat -> list BaseMessage -> option string.

Lemma stream_loop_end (n : nat) (p : string) (gstate current_state : AgentState)
    (w : World) :
  p ∈ phases ->
  conversation_history gstate <> [] ->
  route (normalize (user_command gstate)) (current_phase gstate) = Ok "end" ->
  route (normalize (user_command current_state)) (current_phase current_state)
    = Ok "end" ->
  let u := phase_update p gstate
             (reply_at llm w (phase_messages p (conversation_history gstate))) in
  stream_loop (_create_graph llm) (S n) (Node p) gstate current_state w =
    ([Chunk p u], Ok tt,
     (save_discussion (update current_state u)
        (logged
           (logged
              (called (logged w p [("discussion_id", discussion_id gstate)])
                 (phase_messages p (conversation_history gstate)))
              "router" [("command", user_command gstate)])
           "router" [("command", user_command current_state)])).2).
Proof.
  intros Hp Hne Hg Hc u.
  rewrite stream_loop_step, (superstep_phase _ _ _ _ Hp Hne). cbv zeta.
  rewrite Hg. change (assoc "end" path_map) with (Some END). cbv beta iota.
  rewrite persist_step_result. cbv zeta. rewrite Hc. cbv beta iota.
  destruct n; reflexivity.
Qed.

(** C1, as amended: in a turn whose command the router maps to "end", the
    entry phase - the first of the list - executes exactly once and nothing
    else runs; the transcript gains exactly one assistant entry after the
    user message, the turn ends without error, and the state saved for the
    discussion keeps the phase it had. *)
Theorem end_turn_runs_entry_phase_once
    (user_input : string) (requested_id : option string) (new_id : string)
    (w : World) (state : AgentState) :
  turn_state w requested_id new_id = Some state ->
  route (normalize user_input) (current_phase state) = Ok "end" ->
  exists reply document,
    (run_agent_stream llm user_input requested_id new_id w).1 =
      ([Chunk "vision_and_scoping"
          {| upd_conversation_history :=
               conversation_history state ++ [("user", user_input); ("ai", reply)];
             upd_design_document := Some document |}],
       Ok tt)
    /\ phase_executions (run_agent_stream llm user_input requested_id new_id w).1.1
       = ["vision_and_scoping"]
    /\ forall oid,
         ObjectId (discussion_id state) = Ok oid ->
         exists s,
           discussions (run_agent_stream llm user_input requested_id new_id w).2 !! oid
             = Some s
           /\ conversation_history s
              = conversation_history state ++ [("user", user_input); ("ai", reply)]
           /\ current_phase s = current_phase state.
Proof.
  intros H Hr. rewrite (run_agent_stream_started _ _ _ _ _ _ H).
  change recursion_limit with (S 24). unfold try_except.
  rewrite (stream_loop_end 24 "vision_and_scoping"
             (with_user_input state user_input) (with_user_input state user_input) w
             entry_phase (user_input_nonempty _ _) Hr Hr).
  cbv zeta. unfold phase_update at 1.
  cbn [conversation_history with_user_input].
  rewrite <- app_assoc. cbn [app].
  eexists. eexists. split; [reflexivity|]. split; [reflexivity|].
  intros oid Hoid. unfold save_discussion.
  cbn [discussion_id update with_user_input]. rewrite Hoid.
  eexists. split; [apply lookup_insert_eq|].
  cbn. rewrite <- app_assoc. split; reflexivity.
Qed.

End EndTurn.

Lemma end_turn_runs_entry_phase_once_witness :
  exists reply document,
    (run_agent_stream (fun _ _ => Some "ok") "[end]" None
       "0123456789abcdef01234567" empty_world).1 =
      ([Chunk "vision_and_scoping"
          {| upd_conversation_history :=
               conversation_history
                 (new_state "0123456789abcdef01234567" "vision_and_scoping")
               ++ [("user", "[end]"); ("ai", reply)];
             upd_design_document := Some document |}],
       Ok tt)
    /\ phase_executions
         (run_agent_stream (fun _ _ => Some "ok") "[end]" None
            "0123456789abcdef01234567" empty_world).1.1
       = ["vision_and_scoping"]
    /\ forall oid,
         ObjectId (discussion_id
                     (new_state "0123456789abcdef01234567" "vision_and_scoping"))
           = Ok oid ->
         exists s,
           discussions
             (run_agent_stream (fun _ _ => Some "ok") "[end]" None
                "0123456789abcdef01234567" empty_world).2 !! oid
             = Some s
           /\ conversation_history s
              = conversation_history
                  (new_state "0123456789abcdef01234567" "vision_and_scoping")
                ++ [("user", "[end]"); ("ai", reply)]
           /\ current_phase s
              = current_phase (new_state "0123456789abcdef01234567" "vision_and_scoping").
Proof.
  apply (end_turn_runs_entry_phase_once (fun _ _ => Some "ok") "[end]" None
           "0123456789abcdef01234567" empty_world
           (new_state "0123456789abcdef01234567" "vision_and_scoping"));
    reflexivity.
Defined.

(** C1 as stated fails: a new discussion whose first message is "[end]".
    The router maps the command to "end", yet the first phase executes and
    the saved transcript holds an assistant entry after the user message. *)
Lemma end_turn_runs_a_phase_counterexample :
  let run := run_agent_stream (fun _ _ => Some "ok") "[end]" None
               "0123456789abcdef01234567" empty_world in
  route (normalize "[end]") "vision_and_scoping" = Ok "end"
  /\ phase_executions run.1.1 = ["vision_and_scoping"]
  /\ phase_executions run.1.1 <> []
  /\ (conversation_history <$> discussions run.2 !! "0123456789abcdef01234567")
     = Some [("user", "[end]"); ("ai", "ok")]
  /\ (conversation_history <$> discussions run.2 !! "0123456789abcdef01234567")
     <> Some [("user", "[end]")].
Proof.
  cbv zeta. split; [reflexivity|]. split; [reflexivity|].
  split; [discriminate|]. split; [vm_compute; reflexivity|].
  vm_compute. discriminate.
Qed.

(** ** Turns that the router sends to a phase *)

Lemma list_index_elem (x : string) (l : list string) (i : Z) :
  list_index x l = Ok i -> x ∈ l.
Proof.
  revert i. induction l as [|y l IH]; intros i; [discriminate|]. simpl.
  destruct (String.eqb_spec y x) as [-> | _].
  - intros _. apply list_elem_of_here.
  - destruct (list_index x l) as [j | e]; [|discriminate].
    intros _. apply list_elem_of_further. now apply (IH j).
Qed.

Lemma summarize_not_phase : "summarize" ∉ phases.
Proof. intros H. apply elem_of_phases in H. intuition discriminate. Qed.

Lemma end_not_phase : "end" ∉ phases.
Proof. intros H. apply elem_of_phases in H. intuition discriminate. Qed.

Lemma route_on_phase (command p : string) :
  p ∈ phases ->
  exists q, route command p = Ok q /\ (q ∈ phases \/ q = "summarize" \/ q = "end").
Proof.
  intros Hp. unfold route.
  destruct (contains "[next]" command);
    [each_phase Hp; eexists; (split; [apply eq_refl | left; phase_mem])|].
  destruct (contains "[back]" command);
    [each_phase Hp; eexists; (split; [apply eq_refl | left; phase_mem])|].
  destruct (contains "[summarize]" command); [eauto|].
  destruct (contains "[end]" command || contains "[exit]" command); eauto.
Qed.

Lemma route_closed_on_phases (command p0 target : string) :
  route command p0 = Ok target ->
  target ∈ phases ->
  forall p, p ∈ phases -> exists q, route command p = Ok q /\ q ∈ phases.
Proof.
  intros Hr Ht p Hp. destruct (route_on_phase command p Hp) as (q & Hq & Hcase).
  exists q. split; [exact Hq|].
  destruct Hcase as [H | H]; [exact H|]. exfalso.
  unfold route in Hr, Hq.
  destruct (contains "[next]" command).
  { each_phase Hp; cbn in Hq; destruct H as [-> | ->]; discriminate Hq. }
  destruct (contains "[back]" command).
  { each_phase Hp; cbn in Hq; destruct H as [-> | ->]; discriminate Hq. }
  destruct (contains "[summarize]" command).
  { injection Hr as <-. now apply summarize_not_phase. }
  destruct (contains "[end]" command || contains "[exit]" command).
  { injection Hr as <-. now apply end_not_phase. }
  injection Hq as <-.
  destruct H as [-> | ->]; [now apply summarize_not_phase | now apply end_not_phase].
Qed.

Lemma route_source_is_phase (command p target : string) :
  route command p = Ok target -> target ∈ phases -> p ∈ phases.
Proof.
  unfold route. intros Hr Ht.
  destruct (contains "[next]" command).
  { destruct (list_index p phases) as [i|] eqn:E; [|discriminate].
    eapply list_index_elem, E. }
  destruct (contains "[back]" command).
  { destruct (list_index p phases) as [i|] eqn:E; [|discriminate].
    eapply list_index_elem, E. }
  destruct (contains "[summarize]" command).
  { injection Hr as <-. now apply summarize_not_phase in Ht. }
  destruct (contains "[end]" command || contains "[exit]" command).
  { injection Hr as <-. now apply end_not_phase in Ht. }
  now injection Hr as <-.
Qed.

Lemma nodes_run_app (ys ys' : list Yielded) :
  nodes_run (ys ++ ys') = nodes_run ys ++ nodes_run ys'.
Proof.
  induction ys as [|[node u | err] ys IH]; cbn; [reflexivity | | exact IH].
  now rewrite IH.
Qed.

Lemma filter_phases (l : list string) :
  Forall (fun p => p ∈ phases) l ->
  filter (fun node => is_phase node = true) l = l.
Proof.
  induction 1 as [|p l Hp Hl IH]; [reflexivity|].
  rewrite filter_cons_True; [now rewrite IH|].
  unfold is_phase. now apply bool_decide_eq_true.
Qed.

Section PhaseTurn.

Variable llm : nat -> list BaseMessage -> option string.

Lemma stream_loop_chain (target : string) (n : nat) :
  forall (p : string) (gstate current_state : AgentState) (w : World),
    p ∈ phases ->
    conversation_history gstate <> [] ->
    route (normalize (user_command gstate)) (current_phase gstate) = Ok target ->
    target ∈ phases ->
    user_command current_state = user_command gstate ->
    current_phase current_state ∈ phases ->
    exists ys w',
      stream_loop (_create_graph llm) n (Node p) gstate current_state w
        = (ys, Raise GraphRecursionError, w')
      /\ nodes_run ys = match n with O => [] | S m => p :: repeat target m end.
Proof.
  induction n as [|n IH]; intros p gstate cur w Hp Hne Hr Ht Hcmd Hcur.
  - exists [], w. split; reflexivity.
  - rewrite stream_loop_step, (superstep_phase _ _ _ _ Hp Hne). cbv zeta.
    rewrite Hr, (path_map_phase _ Ht). cbv beta iota.
    rewrite persist_step_result. cbv zeta.
    rewrite Hcmd.
    destruct (route_closed_on_phases _ _ _ Hr Ht _ Hcur) as (q & Hq & Hqp).
    rewrite Hq. cbv beta iota.
    set (u := phase_update p gstate
                (reply_at llm w (phase_messages p (conversation_history gstate)))).
    assert (Hrec : recorded cur u q = set_current_phase (update cur u) q).
    { unfold recorded. destruct (String.eqb_spec q "end") as [-> | _]; [|reflexivity].
      now apply end_not_phase in Hqp. }
    rewrite Hrec.
    match goal with
    | |- context [stream_loop ?g n ?t ?gs ?cs ?w2] =>
        destruct (IH target gs cs w2) as (ys & w' & Hloop & Hnodes);
        [ exact Ht
        | cbn; intros E; now apply app_nil in E as [_ E]
        | exact Hr
        | exact Ht
        | exact Hcmd
        | exact Hqp
        | rewrite Hloop ]
    end.
    eexists. eexists. split; [reflexivity|].
    cbn. rewrite Hnodes. now destruct n.
Qed.

(** The chain in general: in a turn whose command the router maps to a
    phase, the entry phase runs first and then the phase the router selects
    runs after every step, the router seeing the same command each time;
    no edge leads to [END], so the run uses up its [recursion_limit] steps
    and the turn ends with the resulting error. *)
Theorem phase_turn_chains_executions
    (user_input : string) (requested_id : option string) (new_id : string)
    (w : World) (state : AgentState) (target : string) :
  turn_state w requested_id new_id = Some state ->
  route (normalize user_input) (current_phase state) = Ok target ->
  target ∈ phases ->
  phase_executions (run_agent_stream llm user_input requested_id new_id w).1.1
    = "vision_and_scoping" :: repeat target (recursion_limit - 1)
  /\ nodes_run (run_agent_stream llm user_input requested_id new_id w).1.1
     = "vision_and_scoping" :: repeat target (recursion_limit - 1)
  /\ last (run_agent_stream llm user_input requested_id new_id w).1.1
     = Some (Error (UnexpectedError GraphRecursionError)).
Proof.
  intros H Hr Ht. rewrite (run_agent_stream_started _ _ _ _ _ _ H).
  destruct (stream_loop_chain target recursion_limit "vision_and_scoping"
              (with_user_input state user_input) (with_user_input state user_input) w
              entry_phase (user_input_nonempty _ _) Hr Ht eq_refl
              (route_source_is_phase _ _ _ Hr Ht))
    as (ys & w' & Hloop & Hnodes).
  unfold try_except. rewrite Hloop. cbn [on_error yield fst snd].
  assert (Hrun : nodes_run (ys ++ [Error (UnexpectedError GraphRecursionError)])
                 = "vision_and_scoping" :: repeat target (recursion_limit - 1)).
  { rewrite nodes_run_app, Hnodes. reflexivity. }
  split; [|split].
  - unfold phase_executions. rewrite Hrun. apply filter_phases.
    constructor; [apply entry_phase|]. apply Forall_forall.
    intros x Hx. apply list_elem_of_In, repeat_spec in Hx. now subst.
  - exact Hrun.
  - apply last_snoc.
Qed.

End PhaseTurn.

Lemma phase_turn_chains_executions_witness :
  phase_executions
    (run_agent_stream (fun _ _ => Some "ok") "[next]" None
       "0123456789abcdef01234567" empty_world).1.1
    = "vision_and_scoping" :: repeat "functional_requirements" (recursion_limit - 1)
  /\ nodes_run
       (run_agent_stream (fun _ _ => Some "ok") "[next]" None
          "0123456789abcdef01234567" empty_world).1.1
     = "vision_and_scoping" :: repeat "functional_requirements" (recursion_limit - 1)
  /\ last (run_agent_stream (fun _ _ => Some "ok") "[next]" None
             "0123456789abcdef01234567" empty_world).1.1
     = Some (Error (UnexpectedError GraphRecursionError)).
Proof.
  apply (phase_turn_chains_executions (fun _ _ => Some "ok") "[next]" None
           "0123456789abcdef01234567" empty_world
           (new_state "0123456789abcdef01234567" "vision_and_scoping")
           "functional_requirements").
  - reflexivity.
  - reflexivity.
  - phase_mem.
Defined.

(** C2: the code at the failing input, a new discussion whose first
    message is "hello".  The router maps the command to the first phase and
    the claim asks for exactly one phase execution; the turn executes that
    phase 25 times, the router sending it back to the phase after every
    step, and ends with the error that [run_agent_stream] reports as
    unexpected.  The number of executions is the step limit of the run,
    whatever that limit is: with any limit of two steps or more the phase
    is executed as many times as the limit allows, never once. *)
Lemma phase_turn_not_single_counterexample :
  let run := run_agent_stream (fun _ _ => Some "ok") "hello" None
               "0123456789abcdef01234567" empty_world in
  let first := with_user_input
                 (new_state "0123456789abcdef01234567" "vision_and_scoping") "hello" in
  route (normalize "hello") "vision_and_scoping" = Ok "vision_and_scoping"
  /\ phase_executions run.1.1 = repeat "vision_and_scoping" 25
  /\ length (phase_executions run.1.1) <> 1
  /\ last run.1.1 = Some (Error (UnexpectedError GraphRecursionError))
  /\ forall limit : nat,
       phase_executions
         (stream_loop (_create_graph (fun _ _ => Some "ok")) (S (S limit))
            (Node "vision_and_scoping") first first empty_world).1.1
       = repeat "vision_and_scoping" (S (S limit)).
Proof.
  cbv zeta. split; [reflexivity|]. split; [vm_compute; reflexivity|].
  split; [vm_compute; discriminate|]. split; [vm_compute; reflexivity|].
  intros limit.
  destruct (stream_loop_chain (fun _ _ => Some "ok") "vision_and_scoping"
              (S (S limit)) "vision_and_scoping"
              (with_user_input
                 (new_state "0123456789abcdef01234567" "vision_and_scoping") "hello")
              (with_user_input
                 (new_state "0123456789abcdef01234567" "vision_and_scoping") "hello")
              empty_world entry_phase (user_input_nonempty _ _) eq_refl entry_phase
              eq_refl entry_phase)
    as (ys & w' & -> & Hnodes).
  cbn [fst]. unfold phase_executions. rewrite Hnodes.
  change ("vision_and_scoping" :: repeat "vision_and_scoping" (S limit))
    with (repeat "vision_and_scoping" (S (S limit))).
  apply filter_phases, Forall_forall.
  intros x Hx. apply list_elem_of_In, repeat_spec in Hx. subst x. apply entry_phase.
Qed.

(** ** Discussions across turns *)

Lemma char_lower_idem (c : ascii) : char_lower (char_lower c) = char_lower c.
Proof. destruct c as [[] [] [] [] [] [] [] []]; reflexivity. Qed.

Lemma is_hex_char_lower (c : ascii) : is_hex c = true -> is_hex (char_lower c) = true.
Proof.
  destruct c as [[] [] [] [] [] [] [] []]; intros H; try reflexivity;
    discriminate H.
Qed.

Lemma lower_idem (s : string) : lower (lower s) = lower s.
Proof.
  induction s as [|c s IH]; [reflexivity|]. cbn [lower].
  now rewrite char_lower_idem, IH.
Qed.

Lemma length_lower (s : string) : String.length (lower s) = String.length s.
Proof.
  induction s as [|c s IH]; [reflexivity|].
  change (S (String.length (lower s)) = S (String.length s)). now rewrite IH.
Qed.

Lemma all_hex_lower (s : string) :
  all_chars is_hex s = true -> all_chars is_hex (lower s) = true.
Proof.
  induction s as [|c s IH]; [reflexivity|]. cbn [all_chars lower].
  intros H. apply andb_true_iff in H as [Hc Hs].
  now rewrite (is_hex_char_lower _ Hc), (IH Hs).
Qed.

Lemma is_hex_not_space (c : ascii) : is_hex c = true -> is_ascii_space c = false.
Proof.
  destruct c as [[] [] [] [] [] [] [] []]; intros H; try reflexivity;
    discriminate H.
Qed.

Lemma fromhex_gives_digits (s : string) :
  forall pending digits,
    match pending with Some top => is_hex top = true | None => True end ->
    fromhex_from pending s = Some digits ->
    all_chars is_hex digits = true.
Proof.
  induction s as [|c s IH]; intros [top|] digits Hp; cbn [fromhex_from];
    try discriminate.
  - now intros [= <-].
  - destruct (is_hex c) eqn:Hc; [|discriminate].
    destruct (fromhex_from None s) as [d|] eqn:Hd; [|discriminate].
    intros [= <-]. cbn [all_chars]. now rewrite Hp, Hc, (IH None d I Hd).
  - destruct (is_ascii_space c); [now apply IH|].
    destruct (is_hex c) eqn:Hc; [|discriminate]. now apply IH.
Qed.

Lemma fromhex_of_digits (k : string) :
  all_chars is_hex k = true ->
  forall pending digits,
    fromhex_from pending k = Some digits ->
    digits = match pending with Some top => String top k | None => k end.
Proof.
  induction k as [|c k IH]; intros Hall [top|] digits; cbn [fromhex_from];
    try discriminate.
  - now intros [= <-].
  - cbn [all_chars] in Hall. apply andb_true_iff in Hall as [Hc Hk].
    rewrite Hc. destruct (fromhex_from None k) as [d|] eqn:Hd; [|discriminate].
    intros [= <-]. now rewrite (IH Hk None d Hd).
  - cbn [all_chars] in Hall. apply andb_true_iff in Hall as [Hc Hk].
    rewrite (is_hex_not_space _ Hc), Hc. intros H. exact (IH Hk (Some c) digits H).
Qed.

(** A key that is itself accepted as an identifier is its own key. *)
Lemma ObjectId_key (s k oid : string) :
  ObjectId s = Ok k -> ObjectId k = Ok oid -> oid = k.
Proof.
  unfold ObjectId, fromhex.
  destruct (String.length s =? 24)%nat; [|discriminate].
  destruct (fromhex_from None s) as [d|] eqn:Hd; [|discriminate].
  intros [= <-].
  destruct (String.length (lower d) =? 24)%nat; [|discriminate].
  destruct (fromhex_from None (lower d)) as [d'|] eqn:Hd'; [|discriminate].
  intros [= <-].
  pose proof (fromhex_gives_digits s None d I Hd) as Hall.
  rewrite (fromhex_of_digits _ (all_hex_lower _ Hall) None d' Hd').
  apply lower_idem.
Qed.

Lemma route_step_keeps_invariant (command p p' : string) :
  phase_or_summarize p -> route_step command p p' -> phase_or_summarize p'.
Proof.
  intros [Hp | ->] [Hr Hne].
  - destruct (route_on_phase (normalize command) p Hp) as (q & Hq & Hcase).
    rewrite Hr in Hq. injection Hq as <-.
    destruct Hcase as [H | [H | H]]; [now left | now right | contradiction].
  - right. unfold route in Hr.
    destruct (contains "[next]" (normalize command)); [discriminate|].
    destruct (contains "[back]" (normalize command)); [discriminate|].
    destruct (contains "[summarize]" (normalize command)); [now injection Hr|].
    destruct (contains "[end]" (normalize command) || contains "[exit]" (normalize command));
      injection Hr as <-; [contradiction | reflexivity].
Qed.

Lemma route_step_from_summarize (command p' : string) :
  route_step command "summarize" p' -> p' = "summarize".
Proof.
  intros [Hr Hne]. unfold route in Hr.
  destruct (contains "[next]" (normalize command)); [discriminate|].
  destruct (contains "[back]" (normalize command)); [discriminate|].
  destruct (contains "[summarize]" (normalize command)); [now injection Hr|].
  destruct (contains "[end]" (normalize command) || contains "[exit]" (normalize command));
    injection Hr as <-; [contradiction | reflexivity].
Qed.

Lemma evolves_keeps_invariant (s s' : AgentState) :
  evolves s s' ->
  phase_or_summarize (current_phase s) -> phase_or_summarize (current_phase s').
Proof.
  intros [_ _ _ _ Hp]. induction Hp as [|p q r Hstep _ IH]; [auto|].
  intros H. apply IH. eapply route_step_keeps_invariant; eassumption.
Qed.

Lemma evolves_from_summarize (s s' : AgentState) :
  evolves s s' -> current_phase s = "summarize" -> current_phase s' = "summarize".
Proof.
  intros [_ _ _ _ Hp]. induction Hp as [|p q r Hstep _ IH]; [auto|].
  intros ->. apply IH. eapply route_step_from_summarize; eassumption.
Qed.

Section Store.

Variable llm : nat -> list BaseMessage -> option string.

(** What one turn does to the discussion stored under [oid]: nothing, or
    it replaces it by a state the turn's discussion evolved into - a new
    discussion keyed by the generated identifier, or the stored one. *)
Lemma turn_store (t : Turn) (w : World) (oid : string) :
  discussions (run_turn llm w t) !! oid = discussions w !! oid
  \/ exists state s,
       discussions (run_turn llm w t) !! oid = Some s
       /\ evolves (with_user_input state (turn_input t)) s
       /\ ((starts_new (turn_discussion_id t) = true
            /\ ObjectId (turn_new_id t) = Ok oid
            /\ state = new_state (turn_new_id t) "vision_and_scoping")
           \/ (starts_new (turn_discussion_id t) = false
               /\ exists saved, discussions w !! oid = Some saved
                                /\ state = set_discussion_id saved oid)).
Proof.
  destruct t as [user_input requested_id new_id]. unfold run_turn. cbn.
  destruct (turn_state w requested_id new_id) as [state|] eqn:Hts.
  - destruct (turn_effect llm user_input _ _ _ _ Hts) as [Hstore _].
    destruct (Hstore oid) as [Hsame | (Hk & s & Hs & Hev)]; [now left|].
    right. exists state, s. split; [exact Hs|]. split; [exact Hev|].
    cbn in Hk. unfold turn_state in Hts.
    destruct requested_id as [[|c r]|].
    + left. injection Hts as <-. auto.
    + right. split; [reflexivity|].
      destruct (ObjectId (String c r)) as [k|] eqn:Hoid; [|discriminate].
      destruct (discussions w !! k) as [saved|] eqn:Hsaved; [|discriminate].
      injection Hts as <-. cbn in Hk.
      apply (ObjectId_key _ _ _ Hoid) in Hk. subst oid.
      exists saved. auto.
    + left. injection Hts as <-. auto.
  - left. now rewrite (turn_without_state llm _ _ _ _ Hts).
Qed.

Lemma turn_keeps_invariant (t : Turn) (w : World) :
  (forall oid s, discussions w !! oid = Some s -> phase_or_summarize (current_phase s)) ->
  forall oid s, discussions (run_turn llm w t) !! oid = Some s ->
                phase_or_summarize (current_phase s).
Proof.
  intros Hinv oid s Hs.
  destruct (turn_store t w oid) as [Hsame | (state & s' & Hs' & Hev & Hcase)].
  - rewrite Hsame in Hs. eapply Hinv, Hs.
  - rewrite Hs' in Hs. injection Hs as <-.
    eapply evolves_keeps_invariant; [exact Hev|]. cbn.
    destruct Hcase as [(_ & _ & ->) | (_ & saved & Hsaved & ->)].
    + left. apply entry_phase.
    + cbn. eapply Hinv, Hsaved.
Qed.

Lemma turn_keeps_summarize (t : Turn) (w : World) (oid : string) :
  (starts_new (turn_discussion_id t) = true ->
   forall k, ObjectId (turn_new_id t) = Ok k -> discussions w !! k = None) ->
  stored_phase w oid = Some "summarize" ->
  stored_phase (run_turn llm w t) oid = Some "summarize".
Proof.
  intros Hfresh Hsum. unfold stored_phase in *.
  destruct (turn_store t w oid) as [Hsame | (state & s' & Hs' & Hev & Hcase)].
  - now rewrite Hsame.
  - rewrite Hs'. cbn. f_equal.
    eapply evolves_from_summarize; [exact Hev|]. cbn.
    destruct Hcase as [(Hnew & Hk & ->) | (_ & saved & Hsaved & ->)].
    + rewrite (Hfresh Hnew _ Hk) in Hsum. discriminate.
    + rewrite Hsaved in Hsum. cbn in Hsum |- *. congruence.
Qed.

Lemma turn_extends_fragment (t : Turn) (w : World) (oid phase : string) :
  (starts_new (turn_discussion_id t) = true ->
   forall k, ObjectId (turn_new_id t) = Ok k -> discussions w !! k = None) ->
  str_prefix (fragment w oid phase) (fragment (run_turn llm w t) oid phase).
Proof.
  intros Hfresh. unfold fragment.
  destruct (turn_store t w oid) as [Hsame | (state & s' & Hs' & Hev & Hcase)].
  - rewrite Hsame. apply str_prefix_refl.
  - rewrite Hs'. destruct Hcase as [(Hnew & Hk & ->) | (_ & saved & Hsaved & ->)].
    + rewrite (Hfresh Hnew _ Hk). apply str_prefix_empty.
    + rewrite Hsaved. exact (ev_document _ _ Hev phase).
Qed.

(** C3, as amended: the phase saved for a discussion is always one of the
    six phases or the marker "summarize"; and once it is "summarize" it is
    "summarize" after every later turn. *)
Theorem saved_phase_invariant (ts : list Turn) :
  (forall oid s,
     discussions (run_turns llm empty_world ts) !! oid = Some s ->
     phase_or_summarize (current_phase s))
  /\ (forall w oid,
        fresh_ids llm w ts ->
        stored_phase w oid = Some "summarize" ->
        stored_phase (run_turns llm w ts) oid = Some "summarize").
Proof.
  split.
  - assert (Hgen : forall w,
              (forall oid s, discussions w !! oid = Some s ->
                             phase_or_summarize (current_phase s)) ->
              forall oid s, discussions (run_turns llm w ts) !! oid = Some s ->
                            phase_or_summarize (current_phase s)).
    { induction ts as [|t ts' IH]; intros w Hinv; [exact Hinv|].
      cbn. apply IH. now apply turn_keeps_invariant. }
    apply Hgen. intros oid s Hs. cbn in Hs. now rewrite lookup_empty in Hs.
  - induction ts as [|t ts' IH]; intros w oid Hfresh Hsum; [exact Hsum|].
    destruct Hfresh as [Hnow Hlater]. cbn. apply IH; [exact Hlater|].
    now apply turn_keeps_summarize.
Qed.

(** C7: every phase execution writes the prior fragment of its phase
    followed by new text and leaves the other fragments alone; and over any
    sequence of turns the fragment stored for a phase of a discussion only
    grows: the old text is a prefix of the new one, so its length never
    decreases. *)
Theorem fragments_only_grow :
  (forall p state w,
     p ∈ phases ->
     conversation_history state <> [] ->
     exists u document appended w',
       phase_node llm p state w = ([], Ok u, w')
       /\ upd_design_document u = Some document
       /\ document !! p = Some (fragment_of state p +:+ appended)
       /\ forall q, q <> p -> document !! q = design_document state !! q)
  /\ (forall ts w oid phase,
        fresh_ids llm w ts ->
        str_prefix (fragment w oid phase) (fragment (run_turns llm w ts) oid phase)
        /\ String.length (fragment w oid phase)
           <= String.length (fragment (run_turns llm w ts) oid phase)).
Proof.
  split.
  - intros p state w Hp Hne. rewrite (phase_node_result llm _ _ _ Hp Hne).
    unfold phase_update. eexists. eexists. eexists. eexists.
    split; [reflexivity|]. split; [reflexivity|]. split.
    + rewrite lookup_insert_eq. reflexivity.
    + intros q Hq. now rewrite lookup_insert_ne.
  - assert (Hgen : forall ts w oid phase,
              fresh_ids llm w ts ->
              str_prefix (fragment w oid phase)
                         (fragment (run_turns llm w ts) oid phase)).
    { induction ts as [|t ts' IH]; intros w oid phase Hfresh.
      - apply str_prefix_refl.
      - destruct Hfresh as [Hnow Hlater]. cbn.
        eapply str_prefix_trans; [|apply IH, Hlater].
        now apply turn_extends_fragment. }
    intros ts w oid phase Hfresh. split; [now apply Hgen|].
    apply str_prefix_length. now apply Hgen.
Qed.

End Store.

Lemma saved_phase_invariant_witness :
  (exists s,
     discussions (run_turns llm_ok empty_world [turn_summarize]) !! example_id = Some s
     /\ phase_or_summarize (current_phase s))
  /\ stored_phase
       (run_turns llm_ok (run_turn llm_ok empty_world turn_summarize) [turn_next_resumed])
       example_id
     = Some "summarize".
Proof.
  split.
  - eexists. split; [vm_compute; reflexivity|].
    eapply (proj1 (saved_phase_invariant llm_ok [turn_summarize]) example_id).
    vm_compute. reflexivity.
  - apply (proj2 (saved_phase_invariant llm_ok [turn_next_resumed])
             (run_turn llm_ok empty_world turn_summarize) example_id).
    + split; [intros H; discriminate H | exact I].
    + vm_compute. reflexivity.
Defined.

(** C3 as stated fails: a new discussion whose first message is
    "[summarize]" is saved with "summarize" as its current phase, which is
    not one of the six phases.  Nor does a turn that the router ends close
    the discussion: after a first message "[end]" the saved phase is still
    the first one, and a following "[next]" moves it. *)
Lemma saved_phase_outside_phase_list_counterexample :
  stored_phase (run_turns llm_ok empty_world [turn_summarize]) example_id
    = Some "summarize"
  /\ ("summarize" ∉ phases)
  /\ stored_phase (run_turns llm_ok empty_world [turn_end]) example_id
     = Some "vision_and_scoping"
  /\ stored_phase (run_turns llm_ok empty_world [turn_end; turn_next_resumed]) example_id
     = Some "deep_dive_and_tradeoffs".
Proof.
  split; [vm_compute; reflexivity|]. split; [exact summarize_not_phase|].
  split; vm_compute; reflexivity.
Qed.

Lemma fragments_only_grow_witness :
  str_prefix
    (fragment (run_turn llm_ok empty_world turn_hello) example_id "vision_and_scoping")
    (fragment (run_turns llm_ok (run_turn llm_ok empty_world turn_hello)
                 [turn_more_resumed])
              example_id "vision_and_scoping")
  /\ String.length
       (fragment (run_turn llm_ok empty_world turn_hello) example_id "vision_and_scoping")
     <= String.length
          (fragment (run_turns llm_ok (run_turn llm_ok empty_world turn_hello)
                       [turn_more_resumed])
                    example_id "vision_and_scoping").
Proof.
  apply (proj2 (fragments_only_grow llm_ok) [turn_more_resumed]
           (run_turn llm_ok empty_world turn_hello) example_id "vision_and_scoping").
  split; [intros H; discriminate H | exact I].
Defined.


(** * Further properties of the code *)

(** ** The store *)

(** X1: a state saved under an identifier the driver accepts is what a
    load of that identifier returns, with [discussion_id] in the key's
    form; the save reports success and touches no other discussion. *)
Theorem save_then_load (state : AgentState) (w : World) (oid : string) :
  ObjectId (discussion_id state) = Ok oid ->
  (save_discussion state w).1 = ([], Ok true)
  /\ load_discussion (discussion_id state) (save_discussion state w).2
     = ([], Ok (Some (set_discussion_id state oid)), (save_discussion state w).2)
  /\ forall other, other <> oid ->
       discussions (save_discussion state w).2 !! other = discussions w !! other.
Proof.
  intros H. unfold save_discussion, load_discussion. rewrite H. cbn.
  rewrite lookup_insert_eq. cbn.
  split; [reflexivity|]. split; [reflexivity|].
  intros other Hne. now apply lookup_insert_ne.
Qed.

Lemma save_then_load_witness :
  (save_discussion url_shortener_state empty_world).1 = ([], Ok true)
  /\ load_discussion (discussion_id url_shortener_state)
       (save_discussion url_shortener_state empty_world).2
     = ([], Ok (Some (set_discussion_id url_shortener_state example_id)),
        (save_discussion url_shortener_state empty_world).2)
  /\ forall other, other <> example_id ->
       discussions (save_discussion url_shortener_state empty_world).2 !! other
       = discussions empty_world !! other.
Proof.
  apply (save_then_load url_shortener_state empty_world example_id).
  reflexivity.
Defined.

(** X2: saving is an upsert.  Saving the same state twice is saving it
    once, and of two saves under one identifier the second one stays. *)
Theorem save_is_idempotent_upsert (state state' : AgentState) (w : World) :
  (save_discussion state (save_discussion state w).2).2 = (save_discussion state w).2
  /\ (discussion_id state' = discussion_id state ->
      (save_discussion state' (save_discussion state w).2).2
      = (save_discussion state' w).2).
Proof.
  unfold save_discussion. split.
  - destruct (ObjectId (discussion_id state)) as [oid | e]; cbn; [|reflexivity].
    now rewrite insert_insert_eq.
  - intros ->. destruct (ObjectId (discussion_id state)) as [oid | e]; cbn;
      [|reflexivity].
    now rewrite insert_insert_eq.
Qed.

Lemma save_is_idempotent_upsert_witness :
  (save_discussion url_shortener_state
     (save_discussion url_shortener_state empty_world).2).2
  = (save_discussion url_shortener_state empty_world).2
  /\ (discussion_id (set_current_phase url_shortener_state "data_model")
      = discussion_id url_shortener_state ->
      (save_discussion (set_current_phase url_shortener_state "data_model")
         (save_discussion url_shortener_state empty_world).2).2
      = (save_discussion (set_current_phase url_shortener_state "data_model")
           empty_world).2).
Proof.
  apply (save_is_idempotent_upsert url_shortener_state
           (set_current_phase url_shortener_state "data_model") empty_world).
Defined.

(** ** The listing of discussions *)

Lemma str_take_length (n : nat) (s : string) : String.length (str_take n s) <= n.
Proof.
  revert s. induction n as [|n IH]; intros [|c s]; try apply Nat.le_0_l.
  change (S (String.length (str_take n s)) <= S n). specialize (IH s). lia.
Qed.

Lemma str_take_all (n : nat) (s : string) :
  String.length s <= n -> str_take n s = s.
Proof.
  revert s. induction n as [|n IH]; intros [|c s]; try reflexivity.
  - intros H. change (S (String.length s) <= 0) in H. lia.
  - intros H. change (S (String.length s) <= S n) in H.
    cbn [str_take]. rewrite IH by lia. reflexivity.
Qed.

Lemma str_take_prefix (n : nat) (s : string) : str_prefix (str_take n s) s.
Proof.
  revert s. induction n as [|n IH]; intros [|c s]; try apply str_prefix_empty.
  destruct (IH s) as [rest Hrest]. exists rest. cbn [str_take].
  change (String c s = String c (str_take n s +:+ rest)). now rewrite <- Hrest.
Qed.

Lemma length_append (a b : string) :
  String.length (a +:+ b) = String.length a + String.length b.
Proof.
  induction a as [|c a IH]; [reflexivity|].
  change (S (String.length (a +:+ b)) = S (String.length a) + String.length b).
  now rewrite IH.
Qed.

Lemma first_user_msg_found (before : list Entry) (text : string) (after : list Entry) :
  Forall (fun msg => msg.1 <> "user") before ->
  first_user_msg (before ++ ("user", text) :: after) = Some ("user", text).
Proof.
  induction 1 as [|msg before Hmsg _ IH]; [reflexivity|]. cbn.
  destruct (String.eqb_spec msg.1 "user"); [contradiction | exact IH].
Qed.

Lemma first_user_msg_none (history : list Entry) :
  Forall (fun msg => msg.1 <> "user") history -> first_user_msg history = None.
Proof.
  induction 1 as [|msg history Hmsg _ IH]; [reflexivity|]. cbn.
  destruct (String.eqb_spec msg.1 "user"); [contradiction | exact IH].
Qed.

Lemma discussion_title_unfold (doc : AgentState) :
  discussion_title doc =
    match first_user_msg (conversation_history doc) with
    | Some msg => str_take 50 msg.2 +:+ "..."
    | None => "New Discussion"
    end.
Proof. unfold discussion_title. destruct (conversation_history doc); reflexivity. Qed.

(** X3: the title of a stored discussion is the first 50 characters of its
    first user message followed by "...", whatever the length of the
    message, so at most 53 characters; a discussion without a user message
    is titled "New Discussion". *)
Theorem title_from_first_user_message (doc : AgentState) :
  (forall before text after,
     conversation_history doc = before ++ ("user", text) :: after ->
     Forall (fun msg => msg.1 <> "user") before ->
     discussion_title doc = str_take 50 text +:+ "..."
     /\ String.length (discussion_title doc) <= 53
     /\ str_prefix (str_take 50 text) text
     /\ (String.length text <= 50 -> discussion_title doc = text +:+ "..."))
  /\ (Forall (fun msg => msg.1 <> "user") (conversation_history doc) ->
      discussion_title doc = "New Discussion").
Proof.
  rewrite discussion_title_unfold. split.
  - intros before text after Hh Hbefore. rewrite Hh.
    rewrite (first_user_msg_found _ _ _ Hbefore). cbn [snd].
    split; [reflexivity|]. split; [|split].
    + rewrite length_append. pose proof (str_take_length 50 text).
      change (String.length "...") with 3. lia.
    + apply str_take_prefix.
    + intros Hlen. now rewrite str_take_all.
  - intros Hnone. now rewrite (first_user_msg_none _ Hnone).
Qed.

Lemma title_from_first_user_message_witness :
  (discussion_title url_shortener_state = str_take 50 "a URL shortener" +:+ "..."
   /\ String.length (discussion_title url_shortener_state) <= 53
   /\ str_prefix (str_take 50 "a URL shortener") "a URL shortener"
   /\ (String.length "a URL shortener" <= 50 ->
       discussion_title url_shortener_state = "a URL shortener" +:+ "..."))
  /\ discussion_title (new_state example_id "vision_and_scoping") = "New Discussion".
Proof.
  split.
  - apply (proj1 (title_from_first_user_message url_shortener_state)
             [] "a URL shortener" []).
    + reflexivity.
    + constructor.
  - apply (proj2 (title_from_first_user_message
                    (new_state example_id "vision_and_scoping"))).
    constructor.
Defined.


(** ** More on the router *)

Lemma phases_lookup (i : nat) (p : string) :
  phases !! i = Some p ->
  (i = 0 /\ p = "vision_and_scoping") \/ (i = 1 /\ p = "functional_requirements")
  \/ (i = 2 /\ p = "data_model") \/ (i = 3 /\ p = "nfr_and_scale")
  \/ (i = 4 /\ p = "architecture_and_components")
  \/ (i = 5 /\ p = "deep_dive_and_tradeoffs").
Proof.
  do 6 (destruct i as [|i]; [intros [= <-]; tauto|]). discriminate.
Qed.

(** X5: [next] moves one phase forward and [back] one phase backward,
    stopping at the ends: from the phase at position [i] the router answers
    the phase at position [min (i+1) 5] for a command with [next], and the
    phase at position [i-1] (0 for the first) for a command with [back] and
    without [next]. *)
Theorem router_moves_one_step (state : AgentState) (w : World) (i : nat) :
  phases !! i = Some (current_phase state) ->
  (contains "[next]" (normalize (user_command state)) = true ->
   exists q, (_router state w).1.2 = Ok q /\ phases !! Nat.min (i + 1) 5 = Some q)
  /\ (contains "[next]" (normalize (user_command state)) = false ->
      contains "[back]" (normalize (user_command state)) = true ->
      exists q, (_router state w).1.2 = Ok q /\ phases !! (i - 1) = Some q).
Proof.
  intros Hi. rewrite router_result. cbn [fst snd]. unfold route.
  apply phases_lookup in Hi.
  split.
  - intros ->.
    destruct Hi as [[-> ->] | [[-> ->] | [[-> ->] | [[-> ->] | [[-> ->] | [-> ->]]]]]];
      eexists; split; reflexivity.
  - intros -> ->.
    destruct Hi as [[-> ->] | [[-> ->] | [[-> ->] | [[-> ->] | [[-> ->] | [-> ->]]]]]];
      eexists; split; reflexivity.
Qed.

Lemma router_moves_one_step_witness :
  (contains "[next]" (normalize "ok, [Next]") = true ->
   exists q, (_router (mkState example_id [] "data_model" ∅ "ok, [Next]")
                      empty_world).1.2 = Ok q
             /\ phases !! Nat.min (2 + 1) 5 = Some q)
  /\ (contains "[next]" (normalize "ok, [Next]") = false ->
      contains "[back]" (normalize "ok, [Next]") = true ->
      exists q, (_router (mkState example_id [] "data_model" ∅ "ok, [Next]")
                         empty_world).1.2 = Ok q
                /\ phases !! (2 - 1) = Some q).
Proof.
  apply (router_moves_one_step
           (mkState example_id [] "data_model" ∅ "ok, [Next]") empty_world 2).
  reflexivity.
Defined.

Lemma list_index_phase (p : string) :
  p ∈ phases -> exists i, list_index p phases = Ok i /\ (0 <= i <= 5)%Z.
Proof. intros H. each_phase H; eexists; (split; [reflexivity | lia]). Qed.

Lemma list_index_not_phase (p : string) :
  p ∉ phases -> list_index p phases = Raise ValueError.
Proof.
  generalize phases. intros l. induction l as [|y l IH]; intros H; [reflexivity|].
  cbn. destruct (String.eqb_spec y p) as [-> | Hne].
  - exfalso. apply H. apply list_elem_of_here.
  - rewrite IH; [reflexivity|]. intros Hin. apply H. now apply list_elem_of_further.
Qed.

(** X6: the router raises in one situation only: the command asks for
    [next], or for [back], while the current phase is not one of the six
    phases; the exception is then [ValueError].  In every other case it
    returns. *)
Theorem router_raises_exactly (state : AgentState) (w : World) (e : Exc) :
  (_router state w).1.2 = Raise e
  <-> e = ValueError
      /\ (current_phase state ∉ phases)
      /\ (contains "[next]" (normalize (user_command state)) = true
          \/ contains "[back]" (normalize (user_command state)) = true).
Proof.
  rewrite router_result. cbn [fst snd]. unfold route.
  destruct (decide (current_phase state ∈ phases)) as [Hin | Hout].
  - assert (Hnever : forall c, route c (current_phase state) <> Raise e).
    { intros c Hc. destruct (route_on_phase c _ Hin) as (q & Hq & _). congruence. }
    split.
    + intros H. exfalso. apply (Hnever (normalize (user_command state))). exact H.
    + intros (_ & Hno & _). contradiction.
  - rewrite (list_index_not_phase _ Hout).
    destruct (contains "[next]" (normalize (user_command state)));
      [| destruct (contains "[back]" (normalize (user_command state)));
         [| destruct (contains "[summarize]" (normalize (user_command state)));
            [| destruct (contains "[end]" (normalize (user_command state))
                        || contains "[exit]" (normalize (user_command state)))]]];
      split;
      try (intros [= <-]; auto);
      try (intros (-> & _ & _); reflexivity);
      try discriminate;
      try (intros (_ & _ & [H | H]); discriminate H).
Qed.

(** X7: the edge table covers the router: whenever the current phase is
    one of the six phases or "summarize" and the router returns, its answer
    is a key of the path map, so the conditional edge finds its target. *)
Theorem router_answer_has_an_edge (state : AgentState) (w : World) (r : string) :
  phase_or_summarize (current_phase state) ->
  (_router state w).1.2 = Ok r ->
  (r ∈ phases \/ r = "summarize" \/ r = "end")
  /\ is_Some (assoc r path_map).
Proof.
  rewrite router_result. cbn [fst snd]. intros Hp Hr.
  assert (Hcase : r ∈ phases \/ r = "summarize" \/ r = "end").
  { destruct Hp as [Hp | Hp].
    - destruct (route_on_phase (normalize (user_command state)) _ Hp) as (q & Hq & Hc).
      rewrite Hr in Hq. now injection Hq as <-.
    - rewrite Hp in Hr. unfold route in Hr.
      destruct (contains "[next]" (normalize (user_command state))); [discriminate|].
      destruct (contains "[back]" (normalize (user_command state))); [discriminate|].
      destruct (contains "[summarize]" (normalize (user_command state)));
        [injection Hr as <-; auto|].
      destruct (contains "[end]" (normalize (user_command state))
                || contains "[exit]" (normalize (user_command state)));
        injection Hr as <-; auto. }
  split; [exact Hcase|].
  destruct Hcase as [H | [-> | ->]].
  - rewrite (path_map_phase _ H). eauto.
  - eexists. reflexivity.
  - eexists. reflexivity.
Qed.

Lemma router_answer_has_an_edge_witness :
  ("summarize" ∈ phases \/ "summarize" = "summarize" \/ "summarize" = "end")
  /\ is_Some (assoc "summarize" path_map).
Proof.
  apply (router_answer_has_an_edge
           (mkState example_id [] "nfr_and_scale" ∅ "please [summarize] [end]")
           empty_world "summarize").
  - left. phase_mem.
  - reflexivity.
Defined.

Lemma router_raises_exactly_witness :
  (_router (mkState example_id [] "summarize" ∅ "[back]") empty_world).1.2
  = Raise ValueError.
Proof.
  apply (proj2 (router_raises_exactly
                  (mkState example_id [] "summarize" ∅ "[back]") empty_world
                  ValueError)).
  split; [reflexivity|]. split; [exact summarize_not_phase|].
  right. reflexivity.
Defined.

(** ** More on the nodes *)

(** X8: a phase node run on an empty transcript raises [IndexError] right
    after its log entry: the model is not called and nothing is stored. *)
Theorem phase_node_needs_a_transcript
    (llm : nat -> list BaseMessage -> option string)
    (p : string) (state : AgentState) (w : World) :
  conversation_history state = [] ->
  (phase_node llm p state w).1 = ([], Raise IndexError)
  /\ llm_calls (phase_node llm p state w).2 = llm_calls w
  /\ discussions (phase_node llm p state w).2 = discussions w
  /\ logs (phase_node llm p state w).2
     = logs w ++ [mkLog p [("discussion_id", discussion_id state)]].
Proof.
  intros H. unfold phase_node, bind, write_log, lift.
  rewrite H, getitem_empty. cbn. auto.
Qed.

Lemma phase_node_needs_a_transcript_witness :
  (phase_node llm_ok "data_model" (new_state example_id "data_model") empty_world).1
  = ([], Raise IndexError)
  /\ llm_calls (phase_node llm_ok "data_model" (new_state example_id "data_model")
                  empty_world).2
     = llm_calls empty_world
  /\ discussions (phase_node llm_ok "data_model" (new_state example_id "data_model")
                    empty_world).2
     = discussions empty_world
  /\ logs (phase_node llm_ok "data_model" (new_state example_id "data_model")
             empty_world).2
     = logs empty_world
       ++ [mkLog "data_model"
             [("discussion_id", discussion_id (new_state example_id "data_model"))]].
Proof.
  apply (phase_node_needs_a_transcript llm_ok "data_model"
           (new_state example_id "data_model") empty_world).
  reflexivity.
Defined.

Lemma startswith_refl_app (t b : string) : startswith t (t +:+ b) = true.
Proof.
  induction t as [|c t IH]; [reflexivity|].
  change (Ascii.eqb c c && startswith t (t +:+ b) = true).
  now rewrite Ascii.eqb_refl, IH.
Qed.

Lemma startswith_app (t a b : string) :
  startswith t a = true -> startswith t (a +:+ b) = true.
Proof.
  revert a. induction t as [|c t IH]; intros [|x a]; try easy.
  change (Ascii.eqb c x && startswith t a = true ->
          Ascii.eqb c x && startswith t (a +:+ b) = true).
  intros H. apply andb_true_iff in H as [Hc Ht]. now rewrite Hc, (IH _ Ht).
Qed.

Lemma contains_empty (s : string) : contains EmptyString s = true.
Proof. destruct s; reflexivity. Qed.

Lemma contains_app_l (t a b : string) :
  contains t a = true -> contains t (a +:+ b) = true.
Proof.
  induction a as [|x a IH].
  - destruct t; [intros _; apply contains_empty | discriminate].
  - change (startswith t (String x a) || contains t a = true ->
            startswith t (String x (a +:+ b)) || contains t (a +:+ b) = true).
    intros H. apply orb_true_iff in H as [H | H].
    + apply (startswith_app _ _ b) in H.
      change (startswith t (String x (a +:+ b)) = true) in H. now rewrite H.
    + rewrite (IH H). apply orb_true_r.
Qed.

Lemma contains_app_r (t a b : string) :
  contains t b = true -> contains t (a +:+ b) = true.
Proof.
  intros H. induction a as [|x a IH]; [exact H|].
  change (startswith t (String x (a +:+ b)) || contains t (a +:+ b) = true).
  rewrite IH. apply orb_true_r.
Qed.

Lemma contains_self_app (t b : string) : contains t (t +:+ b) = true.
Proof.
  pose proof (startswith_refl_app t b) as H.
  destruct (t +:+ b); cbn [contains]; now rewrite H.
Qed.

Lemma contains_fold_acc (t : string) (f : string -> string) (l : list string) :
  forall acc, contains t acc = true ->
              contains t (fold_left (fun text x => text +:+ f x) l acc) = true.
Proof.
  induction l as [|x l IH]; intros acc H; [exact H|].
  cbn. apply IH. now apply contains_app_l.
Qed.

Lemma contains_fold_elem (t : string) (f : string -> string) (l : list string)
    (p : string) :
  p ∈ l -> contains t (f p) = true ->
  forall acc, contains t (fold_left (fun text x => text +:+ f x) l acc) = true.
Proof.
  induction 1 as [p l | p y l Hin IH]; intros Hf acc; cbn.
  - apply contains_fold_acc. now apply contains_app_r.
  - now apply IH.
Qed.

Lemma fold_left_all_empty (f : string -> string) (l : list string) :
  (forall p, p ∈ l -> f p = EmptyString) ->
  fold_left (fun text x => text +:+ f x) l EmptyString = EmptyString.
Proof.
  induction l as [|x l IH]; intros H; [reflexivity|]. cbn.
  rewrite (H x) by apply list_elem_of_here. cbn.
  apply IH. intros p Hp. apply H. now apply list_elem_of_further.
Qed.

(** X9: the summary node never raises and leaves the document alone: its
    update is the transcript followed by one "ai" entry.  When the model
    call fails that entry is the error notice followed by the raw text,
    which holds every fragment stored for a phase and is empty when no
    phase has one. *)
Theorem summary_node_falls_back_to_raw_text
    (llm : nat -> list BaseMessage -> option string)
    (state : AgentState) (w : World) :
  (exists message w',
     _summary_node llm state w =
       ([],
        Ok {| upd_conversation_history :=
                conversation_history state ++ [("ai", message)];
              upd_design_document := None |},
        w')
     /\ discussions w' = discussions w
     /\ (llm (length (llm_calls w)) (summary_messages (design_document state)) = None ->
         message =
           "I encountered an error while generating the summary. Here is the raw data:"
           +:+ nl +:+ nl +:+ full_document_text (design_document state)))
  /\ (forall p fragment,
        p ∈ phases ->
        design_document state !! p = Some fragment ->
        contains fragment (full_document_text (design_document state)) = true)
  /\ ((forall p, p ∈ phases -> design_document state !! p = None) ->
      full_document_text (design_document state) = EmptyString).
Proof.
  split; [|split].
  - rewrite summary_node_result. eexists. eexists.
    split; [reflexivity|]. split; [reflexivity|].
    intros Hfail. unfold summary_reply. now rewrite Hfail.
  - intros p fragment Hp Hfrag. unfold full_document_text.
    apply (contains_fold_elem _ _ _ p Hp).
    unfold summary_section. rewrite Hfrag.
    apply contains_app_r, contains_app_r, contains_app_r, contains_app_r.
    apply contains_self_app.
  - intros Hnone. unfold full_document_text. apply fold_left_all_empty.
    intros p Hp. unfold summary_section. now rewrite (Hnone p Hp).
Qed.

Lemma summary_node_falls_back_to_raw_text_witness :
  contains "users are marketers"
           (full_document_text (design_document marketing_state)) = true.
Proof.
  apply (proj1 (proj2 (summary_node_falls_back_to_raw_text
                         (fun _ _ => None) marketing_state empty_world))
           "vision_and_scoping" "users are marketers").
  - phase_mem.
  - vm_compute. reflexivity.
Defined.

(** ** More on turns *)

Lemma getitem_elem {A} (l : list A) (i : Z) (x : A) : getitem l i = Ok x -> x ∈ l.
Proof.
  unfold getitem. destruct (_ <? 0)%Z; [discriminate|].
  destruct (l !! _) as [a|] eqn:E; [|discriminate].
  intros [= <-]. eapply list_elem_of_lookup_2, E.
Qed.

Lemma route_summarize_stable (command p : string) :
  route command p = Ok "summarize" -> route command "summarize" = Ok "summarize".
Proof.
  unfold route.
  destruct (contains "[next]" command).
  { destruct (list_index p phases); [|discriminate].
    intros H. apply getitem_elem in H. now apply summarize_not_phase in H. }
  destruct (contains "[back]" command).
  { destruct (list_index p phases); [|discriminate].
    intros H. apply getitem_elem in H. now apply summarize_not_phase in H. }
  destruct (contains "[summarize]" command); [reflexivity|].
  destruct (contains "[end]" command || contains "[exit]" command);
    [discriminate | reflexivity].
Qed.

Section MoreTurns.

Variable llm : nat -> list BaseMessage -> option string.

(** X10: a turn whose command the router maps to "summarize" runs two
    nodes, the first phase and then the summarizer, and ends without error:
    the transcript gains two assistant entries after the user message, and
    the state saved for the discussion has "summarize" as current phase. *)
Theorem summarize_turn_runs_two_nodes
    (user_input : string) (requested_id : option string) (new_id : string)
    (w : World) (state : AgentState) :
  turn_state w requested_id new_id = Some state ->
  route (normalize user_input) (current_phase state) = Ok "summarize" ->
  exists reply summary document,
    (run_agent_stream llm user_input requested_id new_id w).1 =
      ([Chunk "vision_and_scoping"
          {| upd_conversation_history :=
               conversation_history state ++ [("user", user_input); ("ai", reply)];
             upd_design_document := Some document |};
        Chunk "summarize"
          {| upd_conversation_history :=
               conversation_history state
               ++ [("user", user_input); ("ai", reply); ("ai", summary)];
             upd_design_document := None |}],
       Ok tt)
    /\ forall oid,
         ObjectId (discussion_id state) = Ok oid ->
         exists s,
           discussions (run_agent_stream llm user_input requested_id new_id w).2 !! oid
             = Some s
           /\ conversation_history s
              = conversation_history state
                ++ [("user", user_input); ("ai", reply); ("ai", summary)]
           /\ design_document s = document
           /\ current_phase s = "summarize".
Proof.
  intros H Hr. rewrite (run_agent_stream_started _ _ _ _ _ _ H).
  change recursion_limit with (S (S 23)). unfold try_except.
  rewrite stream_loop_step,
    (superstep_phase _ _ _ _ entry_phase (user_input_nonempty state user_input)).
  cbv zeta. cbn [user_command current_phase with_user_input]. rewrite Hr.
  change (assoc "summarize" path_map) with (Some (Node "summarize")). cbv beta iota.
  rewrite persist_step_result. cbv zeta.
  cbn [user_command current_phase with_user_input]. rewrite Hr. cbv beta iota.
  change (recorded ?c ?u "summarize") with (set_current_phase (update c u) "summarize").
  rewrite stream_loop_step, superstep_summarize. cbv zeta beta iota.
  rewrite persist_step_result. cbv zeta.
  cbn [user_command current_phase set_current_phase update with_user_input].
  rewrite (route_summarize_stable _ _ Hr). cbv beta iota.
  change (recorded ?c ?u "summarize") with (set_current_phase (update c u) "summarize").
  cbn [stream_loop ret]. cbn [app fst snd].
  unfold phase_update, summary_update.
  cbn [conversation_history upd_conversation_history update with_user_input
       design_document upd_design_document default].
  rewrite <- !app_assoc. cbn [app].
  eexists. eexists. eexists. split; [reflexivity|].
  intros oid Hoid. unfold save_discussion.
  cbn [discussion_id set_current_phase update with_user_input]. rewrite Hoid.
  cbn [discussions snd]. rewrite lookup_insert_eq.
  eexists. split; [reflexivity|]. cbn. rewrite <- !app_assoc. auto.
Qed.

(** X11: when the router raises on the command of a turn, the turn yields
    the unexpected-error result and nothing else, and stores nothing; the
    first phase node has run all the same, so the model has been called
    once. *)
Theorem router_failure_stores_nothing
    (user_input : string) (requested_id : option string) (new_id : string)
    (w : World) (state : AgentState) (e : Exc) :
  turn_state w requested_id new_id = Some state ->
  route (normalize user_input) (current_phase state) = Raise e ->
  (run_agent_stream llm user_input requested_id new_id w).1
    = ([Error (UnexpectedError e)], Ok tt)
  /\ discussions (run_agent_stream llm user_input requested_id new_id w).2
     = discussions w
  /\ llm_calls (run_agent_stream llm user_input requested_id new_id w).2
     = llm_calls w
       ++ [HumanMessage SYSTEM_PERSONA
           :: _format_history (conversation_history state ++ [("user", user_input)])
           ++ [HumanMessage VISION_AND_SCOPING_PROMPT]].
Proof.
  intros H Hr. rewrite (run_agent_stream_started _ _ _ _ _ _ H).
  change recursion_limit with (S 24). unfold try_except.
  rewrite stream_loop_step,
    (superstep_phase _ _ _ _ entry_phase (user_input_nonempty state user_input)).
  cbv zeta. cbn [user_command current_phase with_user_input conversation_history].
  rewrite Hr. cbv beta iota. cbn [on_error yield app fst snd].
  split; [reflexivity|]. split; [reflexivity|].
  cbn. now rewrite phase_messages_after_user.
Qed.

End MoreTurns.

Lemma summarize_turn_runs_two_nodes_witness :
  exists reply summary document,
    (run_agent_stream llm_ok "[summarize]" None example_id empty_world).1 =
      ([Chunk "vision_and_scoping"
          {| upd_conversation_history :=
               conversation_history (new_state example_id "vision_and_scoping")
               ++ [("user", "[summarize]"); ("ai", reply)];
             upd_design_document := Some document |};
        Chunk "summarize"
          {| upd_conversation_history :=
               conversation_history (new_state example_id "vision_and_scoping")
               ++ [("user", "[summarize]"); ("ai", reply); ("ai", summary)];
             upd_design_document := None |}],
       Ok tt)
    /\ forall oid,
         ObjectId (discussion_id (new_state example_id "vision_and_scoping")) = Ok oid ->
         exists s,
           discussions
             (run_agent_stream llm_ok "[summarize]" None example_id empty_world).2 !! oid
             = Some s
           /\ conversation_history s
              = conversation_history (new_state example_id "vision_and_scoping")
                ++ [("user", "[summarize]"); ("ai", reply); ("ai", summary)]
           /\ design_document s = document
           /\ current_phase s = "summarize".
Proof.
  apply (summarize_turn_runs_two_nodes llm_ok "[summarize]" None example_id empty_world
           (new_state example_id "vision_and_scoping"));
    reflexivity.
Defined.

Lemma router_failure_stores_nothing_witness :
  let w := run_turn llm_ok empty_world turn_summarize in
  let state := set_current_phase
                 (mkState example_id
                    [("user", "[summarize]"); ("ai", "ok"); ("ai", "ok")]
                    "vision_and_scoping"
                    (<["vision_and_scoping" := nl +:+ "[summarize]" +:+ nl +:+ "AI: ok"]> ∅)
                    "[summarize]")
                 "summarize" in
  (run_agent_stream llm_ok "[next]" (Some example_id) EmptyString w).1
    = ([Error (UnexpectedError ValueError)], Ok tt)
  /\ discussions (run_agent_stream llm_ok "[next]" (Some example_id) EmptyString w).2
     = discussions w
  /\ llm_calls (run_agent_stream llm_ok "[next]" (Some example_id) EmptyString w).2
     = llm_calls w
       ++ [HumanMessage SYSTEM_PERSONA
           :: _format_history (conversation_history state ++ [("user", "[next]")])
           ++ [HumanMessage VISION_AND_SCOPING_PROMPT]].
Proof.
  cbv zeta.
  apply (router_failure_stores_nothing llm_ok "[next]" (Some example_id) EmptyString
           (run_turn llm_ok empty_world turn_summarize) _ ValueError).
  - vm_compute. reflexivity.
  - reflexivity.
Defined.

(** ** More on discussions across turns *)

Section MoreStore.

Variable llm : nat -> list BaseMessage -> option string.

Lemma turn_extends_transcript (t : Turn) (w : World) (oid : string) (doc : AgentState) :
  (starts_new (turn_discussion_id t) = true ->
   forall k, ObjectId (turn_new_id t) = Ok k -> discussions w !! k = None) ->
  discussions w !! oid = Some doc ->
  exists doc' more,
    discussions (run_turn llm w t) !! oid = Some doc'
    /\ conversation_history doc' = conversation_history doc ++ more.
Proof.
  intros Hfresh Hdoc.
  destruct (turn_store llm t w oid) as [Hsame | (state & s' & Hs' & Hev & Hcase)].
  - exists doc, []. rewrite Hsame, app_nil_r. auto.
  - destruct Hcase as [(Hnew & Hk & ->) | (_ & saved & Hsaved & ->)].
    + rewrite (Hfresh Hnew _ Hk) in Hdoc. discriminate.
    + rewrite Hsaved in Hdoc. injection Hdoc as ->.
      destruct (ev_history _ _ Hev) as [more Hmore]. cbn in Hmore.
      exists s', ([("user", turn_input t)] ++ more).
      split; [exact Hs'|]. rewrite Hmore. now rewrite <- app_assoc.
Qed.

(** X12: over any sequence of turns a stored discussion stays stored and
    its transcript is only ever appended to: the transcript it had is a
    prefix of the one it has afterwards. *)
Theorem transcripts_only_grow (ts : list Turn) :
  forall (w : World) (oid : string) (doc : AgentState),
    fresh_ids llm w ts ->
    discussions w !! oid = Some doc ->
    exists doc' more,
      discussions (run_turns llm w ts) !! oid = Some doc'
      /\ conversation_history doc' = conversation_history doc ++ more.
Proof.
  induction ts as [|t ts' IH]; intros w oid doc Hfresh Hdoc.
  - exists doc, []. rewrite app_nil_r. auto.
  - destruct Hfresh as [Hnow Hlater].
    destruct (turn_extends_transcript t w oid doc Hnow Hdoc) as (doc1 & m1 & Hd1 & Hh1).
    destruct (IH _ oid doc1 Hlater Hd1) as (doc2 & m2 & Hd2 & Hh2).
    exists doc2, (m1 ++ m2). split; [exact Hd2|].
    rewrite Hh2, Hh1. now rewrite app_assoc.
Qed.

Lemma evolves_adds_the_user_message (saved : AgentState) (oid user_input : string) :
  ~ evolves (with_user_input (set_discussion_id saved oid) user_input) saved.
Proof.
  intros [_ _ [more Hmore] _ _]. cbn in Hmore.
  apply (f_equal length) in Hmore. rewrite !length_app in Hmore. cbn in Hmore. lia.
Qed.

(** X13: a turn changes at most one stored discussion, the one it saves
    under: every discussion stored under another key is left as it was. *)
Theorem turn_touches_one_discussion (t : Turn) (w : World) (oid : string) :
  turn_key t <> Some oid ->
  discussions (run_turn llm w t) !! oid = discussions w !! oid.
Proof.
  intros Hkey.
  destruct (turn_store llm t w oid) as [Hsame | (state & s' & Hs' & Hev & Hcase)];
    [exact Hsame|].
  exfalso. unfold turn_key in Hkey.
  destruct Hcase as [(Hnew & Hk & _) | (Hold & saved & Hsaved & ->)].
  - apply Hkey. now rewrite Hnew, Hk.
  - rewrite Hold in Hkey. destruct t as [user_input requested_id new_id].
    unfold run_turn in Hs'. cbn in Hold, Hs', Hev, Hkey.
    destruct requested_id as [[|c r]|]; try discriminate Hold. cbn in Hkey.
    destruct (turn_state w (Some (String c r)) new_id) as [st|] eqn:Hts.
    + destruct (turn_effect llm user_input _ _ _ _ Hts) as [Hstore _].
      destruct (Hstore oid) as [Hsame | (Hk & _)].
      * rewrite Hsame, Hsaved in Hs'. injection Hs' as <-.
        exact (evolves_adds_the_user_message _ _ _ Hev).
      * unfold turn_state in Hts.
        destruct (ObjectId (String c r)) as [k|] eqn:Hoid; [|discriminate].
        destruct (discussions w !! k); [|discriminate].
        injection Hts as <-. cbn in Hk.
        apply (ObjectId_key _ _ _ Hoid) in Hk. subst oid.
        now apply Hkey.
    + rewrite (turn_without_state llm _ _ _ _ Hts), Hsaved in Hs'.
      injection Hs' as <-. exact (evolves_adds_the_user_message _ _ _ Hev).
Qed.

Lemma turn_keeps_user_first (t : Turn) (w : World) :
  (forall oid doc, discussions w !! oid = Some doc ->
                   starts_with_user (conversation_history doc)) ->
  forall oid doc, discussions (run_turn llm w t) !! oid = Some doc ->
                  starts_with_user (conversation_history doc).
Proof.
  intros Hinv oid doc Hdoc.
  destruct (turn_store llm t w oid) as [Hsame | (state & s' & Hs' & Hev & Hcase)].
  - rewrite Hsame in Hdoc. eapply Hinv, Hdoc.
  - rewrite Hs' in Hdoc. injection Hdoc as <-.
    destruct (ev_history _ _ Hev) as [more Hmore]. cbn in Hmore.
    destruct Hcase as [(_ & _ & ->) | (_ & saved & Hsaved & ->)].
    + cbn in Hmore. rewrite Hmore. eexists. eexists. reflexivity.
    + cbn in Hmore. destruct (Hinv _ _ Hsaved) as (text & rest & Hh).
      rewrite Hmore, Hh. eexists. eexists. reflexivity.
Qed.

(** X14: in a store built by turns from the empty one, every transcript
    begins with a user message, so every title in the listing is made from
    that message: the placeholder "New Discussion" never shows. *)
Theorem stored_titles_come_from_first_message (ts : list Turn) (oid : string)
    (doc : AgentState) :
  discussions (run_turns llm empty_world ts) !! oid = Some doc ->
  exists text rest,
    conversation_history doc = ("user", text) :: rest
    /\ discussion_title doc = str_take 50 text +:+ "...".
Proof.
  assert (Hgen : forall w,
            (forall oid doc, discussions w !! oid = Some doc ->
                             starts_with_user (conversation_history doc)) ->
            forall oid doc, discussions (run_turns llm w ts) !! oid = Some doc ->
                            starts_with_user (conversation_history doc)).
  { induction ts as [|t ts' IH]; intros w Hinv; [exact Hinv|].
    cbn. apply IH. now apply turn_keeps_user_first. }
  intros Hdoc. destruct (Hgen empty_world) with (oid := oid) (doc := doc)
    as (text & rest & Hh); [|exact Hdoc|].
  - intros k d Hd. cbn in Hd. now rewrite lookup_empty in Hd.
  - exists text, rest. split; [exact Hh|].
    rewrite discussion_title_unfold, Hh. reflexivity.
Qed.

End MoreStore.

Lemma transcripts_only_grow_witness :
  exists doc' more,
    discussions (run_turns llm_ok (run_turn llm_ok empty_world turn_end)
                   [turn_more_resumed]) !! example_id
    = Some doc'
    /\ conversation_history doc'
       = conversation_history
           (set_discussion_id
              (update (with_user_input (new_state example_id "vision_and_scoping") "[end]")
                 (phase_update "vision_and_scoping"
                    (with_user_input (new_state example_id "vision_and_scoping") "[end]")
                    "ok"))
              example_id)
         ++ more.
Proof.
  apply (transcripts_only_grow llm_ok [turn_more_resumed]
           (run_turn llm_ok empty_world turn_end) example_id).
  - split; [intros H; discriminate H | exact I].
  - vm_compute. reflexivity.
Defined.

Lemma turn_touches_one_discussion_witness :
  discussions (run_turn llm_ok (run_turn llm_ok empty_world turn_end)
                 (mkTurn "[end]" None "aaaaaaaaaaaaaaaaaaaaaaaa")) !! example_id
  = discussions (run_turn llm_ok empty_world turn_end) !! example_id.
Proof.
  apply (turn_touches_one_discussion llm_ok
           (mkTurn "[end]" None "aaaaaaaaaaaaaaaaaaaaaaaa")
           (run_turn llm_ok empty_world turn_end) example_id).
  vm_compute. discriminate.
Defined.

Lemma stored_titles_come_from_first_message_witness :
  exists text rest,
    conversation_history
      (update (with_user_input (new_state example_id "vision_and_scoping") "[end]")
         (phase_update "vision_and_scoping"
            (with_user_input (new_state example_id "vision_and_scoping") "[end]")
            "ok"))
    = ("user", text) :: rest
    /\ discussion_title
         (update (with_user_input (new_state example_id "vision_and_scoping") "[end]")
            (phase_update "vision_and_scoping"
               (with_user_input (new_state example_id "vision_and_scoping") "[end]")
               "ok"))
       = str_take 50 text +:+ "...".
Proof.
  apply (stored_titles_come_from_first_message llm_ok [turn_end] example_id).
  vm_compute. reflexivity.
Defined.

(** ** Invariants of the loop *)

Lemma list_index_raises_value_error (x : string) (l : list string) (e : Exc) :
  list_index x l = Raise e -> e = ValueError.
Proof.
  induction l as [|y l IH]; cbn; [now intros [= <-]|].
  destruct (String.eqb y x); [discriminate|].
  destruct (list_index x l) as [i | e']; [discriminate|].
  intros [= <-]. now apply IH.
Qed.

Lemma route_raises_value_error (command p : string) (e : Exc) :
  route command p = Raise e -> e = ValueError.
Proof.
  intros H. destruct (decide (p ∈ phases)) as [Hin | Hout].
  - destruct (route_on_phase command p Hin) as (q & Hq & _). congruence.
  - unfold route in H. rewrite (list_index_not_phase _ Hout) in H.
    destruct (contains "[next]" command); [now injection H as <-|].
    destruct (contains "[back]" command); [now injection H as <-|].
    destruct (contains "[summarize]" command); [discriminate|].
    destruct (contains "[end]" command || contains "[exit]" command); discriminate.
Qed.

Lemma route_answer_is_node (command p r : string) :
  phase_or_summarize p -> route command p = Ok r ->
  exists t, assoc r path_map = Some t /\ is_node t.
Proof.
  intros Hp Hr.
  assert (Hcase : r ∈ phases \/ r = "summarize" \/ r = "end").
  { destruct Hp as [Hp | ->].
    - destruct (route_on_phase command p Hp) as (q & Hq & Hc).
      rewrite Hr in Hq. now injection Hq as <-.
    - unfold route in Hr.
      destruct (contains "[next]" command); [discriminate|].
      destruct (contains "[back]" command); [discriminate|].
      destruct (contains "[summarize]" command); [injection Hr as <-; auto|].
      destruct (contains "[end]" command || contains "[exit]" command);
        injection Hr as <-; auto. }
  destruct Hcase as [H | [-> | ->]].
  - exists (Node r). split; [now apply path_map_phase | now left].
  - exists (Node "summarize"). split; [reflexivity | now right].
  - exists END. split; [reflexivity | exact I].
Qed.

Section Loop.

Variable llm : nat -> list BaseMessage -> option string.

Lemma superstep_document (name : string) (gstate : AgentState) (w : World)
    (u : Update) (gstate' : AgentState) (t : Target) :
  (superstep (_create_graph llm) name gstate w).1.2 = Ok (u, gstate', t) ->
  upd_design_document u = None
  \/ exists p text,
       p ∈ phases
       /\ upd_design_document u = Some (<[p := text]> (design_document gstate)).
Proof.
  destruct (assoc name (graph_nodes (_create_graph llm))) as [action|] eqn:E.
  - apply graph_node_inv in E. destruct E as [[Hp _] | [-> _]].
    + destruct (decide (conversation_history gstate = [])) as [Hnil | Hne].
      * unfold superstep. rewrite (graph_node_phase _ _ Hp). unfold bind.
        rewrite (phase_node_empty _ _ _ _ Hnil). discriminate.
      * rewrite (superstep_phase _ _ _ _ Hp Hne). cbv zeta.
        destruct (route _ _) as [r | e]; [destruct (assoc r path_map)|];
          cbn; try discriminate.
        intros [= <- _ _]. right. eexists. eexists. split; [exact Hp | reflexivity].
    + rewrite superstep_summarize. cbn. intros [= <- _ _]. now left.
  - unfold superstep. rewrite E. discriminate.
Qed.

Lemma keys_after_update (current_state gstate : AgentState) (u : Update)
    (next_phase : string) :
  design_document gstate = design_document current_state ->
  keys_are_phases (design_document current_state) ->
  (upd_design_document u = None
   \/ exists p text,
        p ∈ phases
        /\ upd_design_document u = Some (<[p := text]> (design_document gstate))) ->
  keys_are_phases (design_document (recorded current_state u next_phase))
  /\ design_document (update gstate u)
     = design_document (recorded current_state u next_phase).
Proof.
  intros Hd Hkeys Hu.
  assert (Hdoc : design_document (recorded current_state u next_phase)
                 = default (design_document current_state) (upd_design_document u)).
  { unfold recorded. destruct (String.eqb next_phase "end"); reflexivity. }
  rewrite Hdoc. cbn [design_document update]. rewrite Hd. split; [|reflexivity].
  destruct Hu as [-> | (p & text & Hp & ->)]; [exact Hkeys|].
  cbn. rewrite Hd. intros key Hkey.
  destruct (decide (p = key)) as [<- | Hne]; [exact Hp|].
  rewrite lookup_insert_ne in Hkey by exact Hne. now apply Hkeys.
Qed.

Lemma stream_loop_keys (steps : nat) :
  forall (t : Target) (gstate current_state : AgentState) (w : World),
    design_document gstate = design_document current_state ->
    keys_are_phases (design_document current_state) ->
    (forall oid s, discussions w !! oid = Some s -> keys_are_phases (design_document s)) ->
    forall oid s,
      discussions (stream_loop (_create_graph llm) steps t gstate current_state w).2 !! oid
      = Some s ->
      keys_are_phases (design_document s).
Proof.
  induction steps as [|n IH]; intros [name|] gstate cur w Hd Hkeys Hinv;
    try (cbn; exact Hinv).
  rewrite stream_loop_step.
  destruct (superstep_effect llm name gstate w) as (_ & Hstore & _ & Hu).
  pose proof (superstep_document name gstate w) as Hdoc.
  destruct (superstep (_create_graph llm) name gstate w) as [[ys1 r1] w1].
  cbn in Hstore, Hu, Hdoc.
  destruct r1 as [[[u gstate'] t'] | e]; cbv beta iota;
    [| cbn; now rewrite Hstore].
  destruct (Hu u gstate' t' eq_refl) as [-> _].
  specialize (Hdoc u _ t' eq_refl).
  rewrite persist_step_result. cbv zeta.
  destruct (route (normalize (user_command cur)) (current_phase cur))
    as [next_phase | e]; cbv beta iota; [| cbn; now rewrite Hstore].
  destruct (keys_after_update cur gstate u next_phase Hd Hkeys Hdoc) as [Hk' Hd'].
  match goal with
  | |- context [stream_loop ?g n t' ?gs ?cs ?w2] =>
      specialize (IH t' gs cs w2 Hd' Hk');
      destruct (stream_loop g n t' gs cs w2) as [[ys3 r3] w3]
  end.
  cbn in IH |- *. apply IH.
  intros oid s Hs.
  destruct (save_discussion_effect (recorded cur u next_phase)
              (logged w1 "router" [("command", user_command cur)])) as [_ Hsave].
  destruct (Hsave oid) as [Hsame | [_ Hnew]].
  - rewrite Hsame in Hs. cbn in Hs. rewrite Hstore in Hs. eapply Hinv, Hs.
  - rewrite Hnew in Hs. now injection Hs as <-.
Qed.

Lemma turn_keeps_keys (t : Turn) (w : World) :
  (forall oid s, discussions w !! oid = Some s -> keys_are_phases (design_document s)) ->
  forall oid s, discussions (run_turn llm w t) !! oid = Some s ->
                keys_are_phases (design_document s).
Proof.
  intros Hinv. destruct t as [user_input requested_id new_id]. unfold run_turn. cbn.
  destruct (turn_state w requested_id new_id) as [state|] eqn:Hts.
  - rewrite (run_agent_stream_started llm _ _ _ _ _ Hts), try_except_world.
    apply stream_loop_keys; [reflexivity | | exact Hinv].
    cbn. unfold turn_state in Hts. destruct requested_id as [[|c r]|].
    + injection Hts as <-. intros key [x Hx]. cbn in Hx. now rewrite lookup_empty in Hx.
    + destruct (ObjectId (String c r)) as [k|]; [|discriminate].
      destruct (discussions w !! k) as [saved|] eqn:Hk; [|discriminate].
      injection Hts as <-. cbn. eapply Hinv, Hk.
    + injection Hts as <-. intros key [x Hx]. cbn in Hx. now rewrite lookup_empty in Hx.
  - now rewrite (turn_without_state llm _ _ _ _ Hts).
Qed.

(** X15: in a store built by turns from the empty one, the keys of every
    stored document are phases: no fragment is ever filed under
    "summarize", "end" or any other name. *)
Theorem document_keys_are_phases (ts : list Turn) (oid : string) (doc : AgentState)
    (key : string) :
  discussions (run_turns llm empty_world ts) !! oid = Some doc ->
  is_Some (design_document doc !! key) ->
  key ∈ phases.
Proof.
  assert (Hgen : forall w,
            (forall oid s, discussions w !! oid = Some s ->
                           keys_are_phases (design_document s)) ->
            forall oid s, discussions (run_turns llm w ts) !! oid = Some s ->
                          keys_are_phases (design_document s)).
  { induction ts as [|t ts' IH]; intros w Hinv; [exact Hinv|].
    cbn. apply IH. now apply turn_keeps_keys. }
  intros Hdoc. apply (Hgen empty_world) with (oid := oid); [|exact Hdoc].
  intros k s Hs. cbn in Hs. now rewrite lookup_empty in Hs.
Qed.

Lemma stream_loop_outcome (steps : nat) :
  forall (t : Target) (gstate current_state : AgentState) (w : World),
    is_node t ->
    conversation_history gstate <> [] ->
    phase_or_summarize (current_phase gstate) ->
    Forall (fun y => is_chunk y = true)
           (stream_loop (_create_graph llm) steps t gstate current_state w).1.1
    /\ turn_outcome (stream_loop (_create_graph llm) steps t gstate current_state w).1.2.
Proof.
  induction steps as [|n IH]; intros [name|] gstate cur w Hnode Hne Hphase;
    try (cbn; split; [constructor | unfold turn_outcome; auto]).
  rewrite stream_loop_step.
  assert (Hstep :
    exists u t' w1,
      is_node t'
      /\ (superstep (_create_graph llm) name gstate w = ([], Ok (u, update gstate u, t'), w1)
          \/ superstep (_create_graph llm) name gstate w = ([], Raise ValueError, w1))
      /\ conversation_history (update gstate u) <> []).
  { destruct Hnode as [Hp | ->].
    - rewrite (superstep_phase _ _ _ _ Hp Hne). cbv zeta.
      destruct (route _ _) as [r | e] eqn:Hr.
      + destruct (route_answer_is_node _ _ _ Hphase Hr) as (t' & -> & Ht').
        eexists. exists t'. eexists. split; [exact Ht'|]. split; [left; reflexivity|].
        cbn. intros E. now apply app_nil in E as [_ E].
      + apply route_raises_value_error in Hr as ->.
        exists (phase_update name gstate EmptyString), END. eexists.
        split; [exact I|]. split; [right; reflexivity|].
        cbn. intros E. now apply app_nil in E as [_ E].
    - rewrite superstep_summarize. cbv zeta.
      eexists. exists END. eexists. split; [exact I|]. split; [left; reflexivity|].
      cbn. intros E. now apply app_nil in E as [_ E]. }
  destruct Hstep as (u & t' & w1 & Ht' & [-> | ->] & Hne');
    cbv beta iota; [| split; [constructor | unfold turn_outcome; auto]].
  rewrite persist_step_result. cbv zeta.
  destruct (route (normalize (user_command cur)) (current_phase cur))
    as [next_phase | e] eqn:Hr; cbv beta iota.
  - match goal with
    | |- context [stream_loop ?g n t' ?gs ?cs ?w2] =>
        destruct (IH t' gs cs w2 Ht' Hne' Hphase) as [Hys Hout];
        destruct (stream_loop g n t' gs cs w2) as [[ys3 r3] w3]
    end.
    cbn in Hys, Hout |- *. split; [|exact Hout].
    constructor; [reflexivity | exact Hys].
  - apply route_raises_value_error in Hr as ->. cbn.
    split; [repeat constructor | unfold turn_outcome; auto].
Qed.

End Loop.

Lemma document_keys_are_phases_witness : "vision_and_scoping" ∈ phases.
Proof.
  apply (document_keys_are_phases llm_ok [turn_end] example_id
           (update (with_user_input (new_state example_id "vision_and_scoping") "[end]")
              (phase_update "vision_and_scoping"
                 (with_user_input (new_state example_id "vision_and_scoping") "[end]")
                 "ok"))
           "vision_and_scoping").
  - vm_compute. reflexivity.
  - eexists. vm_compute. reflexivity.
Defined.


Section Outcomes.

Variable llm : nat -> list BaseMessage -> option string.

Lemma reachable_phases (ts : list Turn) (oid : string) (doc : AgentState) :
  discussions (run_turns llm empty_world ts) !! oid = Some doc ->
  phase_or_summarize (current_phase doc).
Proof.
  assert (Hgen : forall w,
            (forall oid s, discussions w !! oid = Some s ->
                           phase_or_summarize (current_phase s)) ->
            forall oid s, discussions (run_turns llm w ts) !! oid = Some s ->
                          phase_or_summarize (current_phase s)).
  { induction ts as [|t ts' IH]; intros w Hinv; [exact Hinv|].
    cbn. apply IH. now apply turn_keeps_invariant. }
  apply (Hgen empty_world). intros k s Hs. cbn in Hs. now rewrite lookup_empty in Hs.
Qed.

(** X16: whatever turns came before, a turn returns normally and yields
    graph chunks followed by at most one error, which is then the last
    item; the error is the could-not-load result of a turn that yields
    nothing else, or reports a [ValueError] or a [GraphRecursionError]. *)
Theorem turn_ends_in_a_known_way (ts : list Turn)
    (user_input : string) (requested_id : option string) (new_id : string) :
  exists chunks tail,
    (run_agent_stream llm user_input requested_id new_id
       (run_turns llm empty_world ts)).1
    = (chunks ++ tail, Ok tt)
    /\ Forall (fun y => is_chunk y = true) chunks
    /\ (tail = []
        \/ (chunks = [] /\ exists id, tail = [Error (CouldNotLoad id)])
        \/ tail = [Error (UnexpectedError ValueError)]
        \/ tail = [Error (UnexpectedError GraphRecursionError)]).
Proof.
  set (w := run_turns llm empty_world ts).
  destruct (turn_state w requested_id new_id) as [state|] eqn:Hts.
  - assert (Hphase : phase_or_summarize (current_phase state)).
    { unfold turn_state in Hts. destruct requested_id as [[|c r]|].
      - injection Hts as <-. left. apply entry_phase.
      - destruct (ObjectId (String c r)) as [k|]; [|discriminate].
        destruct (discussions w !! k) as [saved|] eqn:Hk; [|discriminate].
        injection Hts as <-. cbn. eapply reachable_phases, Hk.
      - injection Hts as <-. left. apply entry_phase. }
    rewrite (run_agent_stream_started llm _ _ _ _ _ Hts). unfold try_except.
    destruct (stream_loop_outcome llm recursion_limit (Node "vision_and_scoping")
                (with_user_input state user_input) (with_user_input state user_input) w
                (or_introl entry_phase) (user_input_nonempty _ _) Hphase)
      as [Hys Hout].
    destruct (stream_loop _ _ _ _ _ w) as [[ys r] w1]. cbn in Hys, Hout.
    destruct Hout as [-> | [-> | ->]]; cbn.
    + exists ys, []. rewrite app_nil_r. auto.
    + exists ys, [Error (UnexpectedError ValueError)].
      split; [reflexivity|]. split; [exact Hys|]. right. right. left. reflexivity.
    + exists ys, [Error (UnexpectedError GraphRecursionError)].
      split; [reflexivity|]. split; [exact Hys|]. right. right. right. reflexivity.
  - destruct requested_id as [[|c r]|]; try discriminate Hts.
    rewrite (run_agent_stream_not_found llm _ _ _ _ _ Hts). cbn.
    exists [], [Error (CouldNotLoad (String c r))]. split; [reflexivity|].
    split; [constructor|]. right. left. eauto.
Qed.

End Outcomes.


(** ** The requests of a turn after the first *)

Lemma phase_messages_after_ai (p : string) (base more : list Entry) :
  more <> [] ->
  Forall (fun entry => entry.1 = "ai") more ->
  phase_messages p (base ++ more)
  = HumanMessage SYSTEM_PERSONA :: _format_history (base ++ more).
Proof.
  intros Hne Hai. destruct (nonempty_snoc _ Hne) as (m & [speaker text] & ->).
  apply Forall_app in Hai as [_ Hlast]. inversion Hlast as [|? ? Hs _]; subst.
  cbn in Hs. subst speaker.
  unfold phase_messages. rewrite app_assoc, last_snoc. cbn. now rewrite app_nil_r.
Qed.

Lemma format_history_last_ai (history : list Entry) (text : string) :
  last (_format_history (history ++ [("ai", text)])) = Some (AIMessage text).
Proof.
  unfold _format_history. rewrite map_app. cbn. apply last_snoc.
Qed.

Lemma later_request_shape (base : list Entry) (messages : list BaseMessage) :
  later_request base messages ->
  (exists text, last messages = Some (AIMessage text))
  \/ (exists document, messages = summary_messages document).
Proof.
  intros [(more & Hne & Hai & ->) | H]; [left | now right].
  destruct (nonempty_snoc _ Hne) as (m & [speaker text] & ->).
  apply Forall_app in Hai as [_ Hlast]. inversion Hlast as [|? ? Hs _]; subst.
  cbn in Hs. subst speaker. exists text.
  rewrite app_assoc. unfold _format_history. rewrite map_app.
  change (map _ [("ai", text)]) with [AIMessage text].
  rewrite app_comm_cons. apply last_snoc.
Qed.

Section LaterRequests.

Variable llm : nat -> list BaseMessage -> option string.

Lemma stream_loop_later_requests (steps : nat) :
  forall (t : Target) (gstate current_state : AgentState) (w : World)
         (base more : list Entry),
    conversation_history gstate = base ++ more ->
    more <> [] ->
    Forall (fun entry => entry.1 = "ai") more ->
    exists rest,
      llm_calls (stream_loop (_create_graph llm) steps t gstate current_state w).2
      = llm_calls w ++ rest
      /\ Forall (later_request base) rest.
Proof.
  induction steps as [|n IH]; intros [name|] gstate cur w base more Hh Hne Hai;
    try (exists []; cbn; rewrite app_nil_r; split; [reflexivity | constructor]).
  assert (Hnonempty : conversation_history gstate <> []).
  { rewrite Hh. intros E. apply app_eq_nil in E as [_ E]. contradiction. }
  rewrite stream_loop_step.
  destruct (assoc name (graph_nodes (_create_graph llm))) as [action|] eqn:E.
  - apply graph_node_inv in E. destruct E as [[Hp _] | [-> _]].
    + rewrite (superstep_phase _ _ _ _ Hp Hnonempty). cbv zeta.
      rewrite Hh, (phase_messages_after_ai name base more Hne Hai).
      set (messages := HumanMessage SYSTEM_PERSONA :: _format_history (base ++ more)).
      assert (Hlater : later_request base messages).
      { left. exists more. auto. }
      destruct (route (normalize (user_command gstate)) (current_phase gstate))
        as [r | e]; [destruct (assoc r path_map) as [t'|]|]; cbv beta iota;
        try (exists [messages]; cbn; split; [reflexivity | constructor; [exact Hlater | constructor]]).
      rewrite persist_step_result. cbv zeta.
      destruct (route (normalize (user_command cur)) (current_phase cur))
        as [next_phase | e]; cbv beta iota;
        [| exists [messages]; cbn; split;
           [reflexivity | constructor; [exact Hlater | constructor]]].
      match goal with
      | |- context [stream_loop ?g n t' ?gs ?cs ?w2] =>
          destruct (IH t' gs cs w2 base
                      (more ++ [("ai", reply_at llm w messages)]))
            as (rest & Hrest & Hall);
          [ cbn; rewrite Hh; now rewrite app_assoc
          | intros E; now apply app_nil in E as [_ E]
          | apply Forall_app; split; [exact Hai | repeat constructor]
          | destruct (stream_loop g n t' gs cs w2) as [[ys3 r3] w3] ]
      end.
      cbn in Hrest |- *. exists (messages :: rest). split; [|constructor; assumption].
      rewrite Hrest.
      match goal with
      | |- context [save_discussion ?s ?w0] =>
          destruct (save_discussion_effect s w0) as [-> _]
      end.
      cbn. now rewrite <- app_assoc.
    + rewrite superstep_summarize. cbv zeta beta iota.
      set (messages := summary_messages (design_document gstate)).
      assert (Hlater : later_request base messages).
      { right. now exists (design_document gstate). }
      rewrite persist_step_result. cbv zeta.
      destruct (route (normalize (user_command cur)) (current_phase cur))
        as [next_phase | e]; cbv beta iota;
        [| exists [messages]; cbn; split;
           [reflexivity | constructor; [exact Hlater | constructor]]].
      match goal with
      | |- context [stream_loop ?g n END ?gs ?cs ?w2] =>
          replace (stream_loop g n END gs cs w2) with (@ret unit tt w2)
            by (destruct n; reflexivity)
      end.
      cbn. exists [messages]. split; [|constructor; [exact Hlater | constructor]].
      match goal with
      | |- context [save_discussion ?s ?w0] =>
          destruct (save_discussion_effect s w0) as [-> _]
      end.
      reflexivity.
  - unfold superstep. rewrite E. cbn.
    exists []. rewrite app_nil_r. split; [reflexivity | constructor].
Qed.

(** X17: only the first request of a turn carries a guiding prompt, and it
    is the first phase's.  Every later request of the turn is the summary
    request or the persona followed by the transcript, which by then ends
    with an assistant entry; the guiding prompt of the phase the command
    moved to is not sent. *)
Theorem later_requests_carry_no_guiding_prompt
    (user_input : string) (requested_id : option string) (new_id : string)
    (w : World) (state : AgentState) :
  turn_state w requested_id new_id = Some state ->
  exists rest,
    llm_calls (run_agent_stream llm user_input requested_id new_id w).2
    = llm_calls w
      ++ (HumanMessage SYSTEM_PERSONA
          :: _format_history (conversation_history state ++ [("user", user_input)])
          ++ [HumanMessage VISION_AND_SCOPING_PROMPT])
      :: rest
    /\ Forall (later_request (conversation_history state ++ [("user", user_input)])) rest
    /\ Forall (fun messages =>
                 (exists text, last messages = Some (AIMessage text))
                 \/ (exists document, messages = summary_messages document)) rest.
Proof.
  intros H.
  assert (Hmain : exists rest,
    llm_calls (run_agent_stream llm user_input requested_id new_id w).2
    = llm_calls w
      ++ (HumanMessage SYSTEM_PERSONA
          :: _format_history (conversation_history state ++ [("user", user_input)])
          ++ [HumanMessage VISION_AND_SCOPING_PROMPT])
      :: rest
    /\ Forall (later_request (conversation_history state ++ [("user", user_input)])) rest).
  { rewrite (run_agent_stream_started llm _ _ _ _ _ H), try_except_world.
    change recursion_limit with (S 24).
    rewrite stream_loop_step,
      (superstep_phase _ _ _ _ entry_phase (user_input_nonempty state user_input)).
    cbv zeta. cbn [conversation_history with_user_input].
    rewrite phase_messages_after_user.
    change (guiding_prompt "vision_and_scoping") with VISION_AND_SCOPING_PROMPT.
    set (first := HumanMessage SYSTEM_PERSONA
                  :: _format_history (conversation_history state ++ [("user", user_input)])
                  ++ [HumanMessage VISION_AND_SCOPING_PROMPT]).
    destruct (route _ _) as [r | e]; [destruct (assoc r path_map) as [t'|]|];
      cbv beta iota;
      try (exists []; cbn; split; [reflexivity | constructor]).
    rewrite persist_step_result. cbv zeta.
    destruct (route _ _) as [next_phase | e]; cbv beta iota;
      [| exists []; cbn; split; [reflexivity | constructor]].
    match goal with
    | |- context [stream_loop ?g 24 t' ?gs ?cs ?w2] =>
        destruct (stream_loop_later_requests 24 t' gs cs w2
                    (conversation_history state ++ [("user", user_input)])
                    [("ai", reply_at llm w first)])
          as (rest & Hrest & Hall);
        [ reflexivity
        | discriminate
        | repeat constructor
        | destruct (stream_loop g 24 t' gs cs w2) as [[ys3 r3] w3] ]
    end.
    cbn in Hrest |- *. exists rest. split; [|exact Hall]. rewrite Hrest.
    match goal with
    | |- context [save_discussion ?s ?w0] =>
        destruct (save_discussion_effect s w0) as [-> _]
    end.
    cbn. now rewrite <- app_assoc. }
  destruct Hmain as (rest & Hcalls & Hall). exists rest.
  split; [exact Hcalls|]. split; [exact Hall|].
  eapply Forall_impl; [exact Hall|]. intros m. apply later_request_shape.
Qed.

End LaterRequests.

Lemma later_requests_carry_no_guiding_prompt_witness :
  exists rest,
    llm_calls (run_agent_stream llm_ok "[next]" None example_id empty_world).2
    = llm_calls empty_world
      ++ (HumanMessage SYSTEM_PERSONA
          :: _format_history
               (conversation_history (new_state example_id "vision_and_scoping")
                ++ [("user", "[next]")])
          ++ [HumanMessage VISION_AND_SCOPING_PROMPT])
      :: rest
    /\ Forall (later_request
                 (conversation_history (new_state example_id "vision_and_scoping")
                  ++ [("user", "[next]")])) rest
    /\ Forall (fun messages =>
                 (exists text, last messages = Some (AIMessage text))
                 \/ (exists document, messages = summary_messages document)) rest.
Proof.
  apply (later_requests_carry_no_guiding_prompt llm_ok "[next]" None example_id
           empty_world (new_state example_id "vision_and_scoping")).
  reflexivity.
Defined.
